(** * termshot: the rendering engine of [internal/img/output.go]

    A shallow embedding of the styled-rune model, the line-wrapping
    ingestion ([AddContent]), the layout measurement ([measureContent]),
    the style resolution of the glyph loop ([image]), the canvas clipping
    of [WritePNG], the raw passthrough ([WriteRaw]) and the font
    resolution ([LoadFontsFromEmbedded]).

    Conventions.  Go's [int] is the 64-bit integer and is carried by [Z];
    the loop counters of the source are bounded by slice lengths and by
    image bounds, so they never reach the wrap-around.  [uint64] style
    words are [Z] read through [Z.land] and [Z.shiftr] exactly as the
    source masks them.  [fixed.Int26_6] is a 32-bit integer; its sums wrap
    ([int32]).  [float64] is the binary64 primitive float.  A Go string is
    kept as the list of its code points wherever the source only splits on
    the one-byte ['\n'] or ranges over its runes, and as UTF-8 bytes where
    it is written out. *)

From Stdlib Require Import ZArith List String Ascii Lia Bool.
From Stdlib Require PrimFloat Uint63.
From stdpp Require Import gmap strings.
From coqutil Require Import Z.bitblast.

Local Open Scope Z_scope.

(** ** Go scalars *)

Definition rune := Z.
Definition float64 := PrimFloat.float.

Definition MaxInt : Z := 2 ^ 63 - 1.

(** Two's complement wrap of a 32-bit sum ([fixed.Int26_6] is [int32]). *)
Definition int32 (z : Z) : Z := (z + 2 ^ 31) mod 2 ^ 32 - 2 ^ 31.

(** [float64(n)] for an integer [n] with [|n| < 2^63]. *)
Definition float64_of_int (n : Z) : float64 :=
  if n <? 0 then PrimFloat.opp (PrimFloat.of_uint63 (Uint63.of_Z (- n)))
  else PrimFloat.of_uint63 (Uint63.of_Z n).

Definition newline : rune := 10.
Definition tab : rune := 9.
Definition RuneError : rune := 0xFFFD.

(** The conversion [string(r)] of a rune keeps valid code points and turns
    every other value (surrogates, negatives, beyond U+10FFFF) into U+FFFD. *)
Definition validRune (r : rune) : rune :=
  if ((0 <=? r) && (r <? 0xD800)) || ((0xE000 <=? r) && (r <=? 0x10FFFF))
  then r else RuneError.

(** [utf8.AppendRune]: the bytes of one rune. *)
Definition encodeRune (r : rune) : list Z :=
  let r := validRune r in
  if r <=? 0x7F then [r]
  else if r <=? 0x7FF then
    [Z.lor 0xC0 (Z.shiftr r 6); Z.lor 0x80 (Z.land r 0x3F)]
  else if r <=? 0xFFFF then
    [Z.lor 0xE0 (Z.shiftr r 12);
     Z.lor 0x80 (Z.land (Z.shiftr r 6) 0x3F);
     Z.lor 0x80 (Z.land r 0x3F)]
  else
    [Z.lor 0xF0 (Z.shiftr r 18);
     Z.lor 0x80 (Z.land (Z.shiftr r 12) 0x3F);
     Z.lor 0x80 (Z.land (Z.shiftr r 6) 0x3F);
     Z.lor 0x80 (Z.land r 0x3F)].

(** [[]byte(string(runes))] *)
Definition utf8 (rs : list rune) : list Z := flat_map encodeRune rs.

(** Go's [error] values: a message, possibly wrapping a cause ([%w]). *)
Inductive error : Type :=
| ErrMsg (msg : string)
| ErrWrap (msg : string) (cause : error).

(** ** The styled-rune model ([bunt.ColoredRune], [bunt.String]) *)

Record ColoredRune : Type := mkColoredRune {
  Settings : Z;   (* uint64 style word *)
  Symbol : rune
}.

Definition bunt_String := list ColoredRune.

(** The symbols of a styled string, in order. *)
Definition String_symbols (s : bunt_String) : list rune := map Symbol s.

(** ** Font faces ([imgfont.Face]) *)

Record Face : Type := mkFace {
  GlyphAdvance : rune -> option Z;   (* fixed.Int26_6, ok *)
  Kern : rune -> rune -> Z;          (* fixed.Int26_6 *)
  Metrics_Height : Z;                (* fixed.Int26_6 *)
  Metrics_Ascent : Z                 (* fixed.Int26_6 *)
}.

(** [font.MeasureString], which [Drawer.MeasureString] calls. *)
Fixpoint measureLoop (f : Face) (prevC : rune) (advance : Z) (s : list rune) : Z :=
  match s with
  | [] => advance
  | c :: rest =>
      let advance :=
        if 0 <=? prevC then int32 (advance + Kern f prevC c) else advance in
      match GlyphAdvance f c with
      | None => measureLoop f prevC advance rest
      | Some a => measureLoop f c (int32 (advance + a)) rest
      end
  end.

Definition MeasureString (f : Face) (s : list rune) : Z := measureLoop f (-1) 0 s.

(** ** The render context *)

Record RGBAColor : Type := mkColor { cR : Z; cG : Z; cB : Z; cA : Z }.

Record Scaffold : Type := mkScaffold {
  content : bunt_String;
  factor : float64;
  columns : Z;
  defaultForegroundColor : RGBAColor;
  clipCanvas : bool;
  drawDecorations : bool;
  drawShadow : bool;
  shadowBaseColor : string;
  shadowRadius : Z;
  shadowOffsetX : float64;
  shadowOffsetY : float64;
  padding : float64;
  margin : float64;
  regular : Face;
  bold : Face;
  italic : Face;
  boldItalic : Face;
  lineSpacing : float64;
  tabSpaces : Z
}.

Definition set_content (s : Scaffold) (c : bunt_String) : Scaffold :=
  mkScaffold c (factor s) (columns s) (defaultForegroundColor s) (clipCanvas s)
    (drawDecorations s) (drawShadow s) (shadowBaseColor s) (shadowRadius s)
    (shadowOffsetX s) (shadowOffsetY s) (padding s) (margin s)
    (regular s) (bold s) (italic s) (boldItalic s) (lineSpacing s) (tabSpaces s).

Definition SetColumns (s : Scaffold) (c : Z) : Scaffold :=
  mkScaffold (content s) (factor s) c (defaultForegroundColor s) (clipCanvas s)
    (drawDecorations s) (drawShadow s) (shadowBaseColor s) (shadowRadius s)
    (shadowOffsetX s) (shadowOffsetY s) (padding s) (margin s)
    (regular s) (bold s) (italic s) (boldItalic s) (lineSpacing s) (tabSpaces s).

Definition ClipCanvas (s : Scaffold) (value : bool) : Scaffold :=
  mkScaffold (content s) (factor s) (columns s) (defaultForegroundColor s) value
    (drawDecorations s) (drawShadow s) (shadowBaseColor s) (shadowRadius s)
    (shadowOffsetX s) (shadowOffsetY s) (padding s) (margin s)
    (regular s) (bold s) (italic s) (boldItalic s) (lineSpacing s) (tabSpaces s).

(** ** Ingestion: [GetFixedColumns] and [AddContent] *)

Section Ingestion.

(** The column count [term.GetTerminalSize] reports, the reader type and
    the tokenizer [bunt.ParseStream] are external collaborators. *)
Variable termColumns : Z.
Variable Reader : Type.
Variable ParseStream : Reader -> error + bunt_String.

Definition GetFixedColumns (s : Scaffold) : Z :=
  if negb (columns s =? 0) then columns s else termColumns.

(** The body of the [for _, cr := range *parsed] loop, with the local
    [counter] and [tmp] threaded through. *)
Fixpoint wrapLoop (s : Scaffold) (counter : Z) (tmp parsed : bunt_String)
  : bunt_String :=
  match parsed with
  | [] => tmp
  | cr :: rest =>
      let counter := counter + 1 in
      let counter := if Symbol cr =? newline then 0 else counter in
      if counter >? GetFixedColumns s then
        let counter := 0 in
        let tmp := tmp ++ [mkColoredRune (Settings cr) newline] in
        wrapLoop s counter (tmp ++ [cr]) rest
      else
        wrapLoop s counter (tmp ++ [cr]) rest
  end.

Definition AddContent (s : Scaffold) (input : Reader) : Scaffold * option error :=
  match ParseStream input with
  | inl err => (s, Some (ErrWrap "failed to parse input stream: " err))
  | inr parsed =>
      let tmp := wrapLoop s 0 [] parsed in
      (set_content s (content s ++ tmp), None)
  end.

End Ingestion.

Arguments AddContent termColumns {Reader} ParseStream s input.

(** ** Layout: [fontHeight] and [measureContent] *)

(** [strings.TrimSuffix(s, "\n")]: drops one trailing newline, if any. *)
Fixpoint TrimSuffix_newline (s : list rune) : list rune :=
  match s with
  | [] => []
  | r :: rest =>
      match rest with
      | [] => if r =? newline then [] else [r]
      | _ :: _ => r :: TrimSuffix_newline rest
      end
  end.

(** [strings.Split(s, "\n")]: the pieces between newlines, one more piece
    than there are newlines. *)
Fixpoint Split_newline (s : list rune) : list (list rune) :=
  match s with
  | [] => [[]]
  | r :: rest =>
      if r =? newline then [] :: Split_newline rest
      else match Split_newline rest with
           | line :: lines => (r :: line) :: lines
           | [] => [[r]]
           end
  end.

(** [strings.Repeat("a", count)] panics on a negative count. *)
Definition Repeat_a (count : Z) : option (list rune) :=
  if count <? 0 then None else Some (repeat 97 (Z.to_nat count)).

Definition fontHeight (s : Scaffold) : float64 :=
  float64_of_int (Z.shiftr (Metrics_Height (regular s)) 6).

(** The lines [measureContent] works on. *)
Definition contentLines (s : Scaffold) : list (list rune) :=
  let tmp := map Symbol (content s) in
  Split_newline (TrimSuffix_newline (map validRune tmp)).

Section Layout.

Variable termColumns : Z.

(** [None] stands for the panic of [strings.Repeat]. *)
Definition measureContent (s : Scaffold) : option (float64 * float64) :=
  let lines := contentLines s in
  let width :=
    if columns s =? 0 then
      Some (fold_left
              (fun width line =>
                 let advance := MeasureString (regular s) line in
                 let lineWidth := float64_of_int (Z.shiftr advance 6) in
                 if PrimFloat.ltb width lineWidth then lineWidth else width)
              lines PrimFloat.zero)
    else
      match Repeat_a (GetFixedColumns termColumns s) with
      | Some filler =>
          Some (float64_of_int (Z.shiftr (MeasureString (regular s) filler) 6))
      | None => None
      end in
  let height :=
    PrimFloat.mul (fontHeight s)
      (PrimFloat.add
         (PrimFloat.mul (float64_of_int (Z.of_nat (length lines) - 1)) (lineSpacing s))
         PrimFloat.one) in
  match width with
  | Some width => Some (width, height)
  | None => None
  end.

End Layout.

(** ** The glyph loop of [image]: style resolution and cursor *)

Inductive FontStyle : Type := Regular | Bold | Italic | BoldItalic.

(** [switch cr.Settings & 0x1C] *)
Definition fontFaceOf (settings : Z) : FontStyle :=
  let class := Z.land settings 0x1C in
  if class =? 4 then Bold
  else if class =? 8 then Italic
  else if class =? 12 then BoldItalic
  else Regular.

(** [cr.Settings&0x1C == 16] *)
Definition underlined (settings : Z) : bool := Z.land settings 0x1C =? 16.

(** [switch cr.Settings & 0x02]: the fill colour, when the case is taken. *)
Definition backgroundOf (settings : Z) : option (Z * Z * Z) :=
  if Z.land settings 0x02 =? 2 then
    Some (Z.land (Z.shiftr settings 32) 0xFF,
          Z.land (Z.shiftr settings 40) 0xFF,
          Z.land (Z.shiftr settings 48) 0xFF)
  else None.

(** [switch cr.Settings & 0x01]: the glyph colour; [None] is the default
    branch, [dc.SetColor(s.defaultForegroundColor)]. *)
Definition foregroundOf (settings : Z) : option (Z * Z * Z) :=
  if Z.land settings 0x01 =? 1 then
    Some (Z.land (Z.shiftr settings 8) 0xFF,
          Z.land (Z.shiftr settings 16) 0xFF,
          Z.land (Z.shiftr settings 24) 0xFF)
  else None.

Definition faceOfStyle (s : Scaffold) (f : FontStyle) : Face :=
  match f with
  | Regular => regular s
  | Bold => bold s
  | Italic => italic s
  | BoldItalic => boldItalic s
  end.

(** The calls made on the drawing context, in order. *)
Inductive DrawOp : Type :=
| SetFontFace (f : FontStyle)
| SetRGB255 (r g b : Z)
| SetColor (c : RGBAColor)
| DrawRectangle (x y w h : float64)
| Fill
| DrawString (str : rune) (x y : float64)
| DrawLine (x1 y1 x2 y2 : float64)
| SetLineWidth (w : float64)
| Stroke.

Section GlyphLoop.

(** [dc.MeasureString(str)] under the face that was set last. *)
Variable glyphSize : Face -> rune -> float64 * float64.

Definition scaled (s : Scaffold) (value : Z) : float64 :=
  PrimFloat.mul (factor s) (float64_of_int value).

(** [xLeft] is [xOffset + paddingX], the left text margin. *)
Fixpoint glyphLoop (s : Scaffold) (xLeft x y : float64) (cs : bunt_String)
  : list DrawOp :=
  match cs with
  | [] => []
  | cr :: rest =>
      let face := fontFaceOf (Settings cr) in
      let str := validRune (Symbol cr) in
      let '(w, h) := glyphSize (faceOfStyle s face) str in
      let background :=
        match backgroundOf (Settings cr) with
        | Some (r, g, b) =>
            [SetRGB255 r g b;
             DrawRectangle x
               (PrimFloat.add (PrimFloat.sub y h) (float64_of_int 12)) w h;
             Fill]
        | None => []
        end in
      let foreground :=
        match foregroundOf (Settings cr) with
        | Some (r, g, b) => [SetRGB255 r g b]
        | None => [SetColor (defaultForegroundColor s)]
        end in
      let prefix := SetFontFace face :: background ++ foreground in
      if str =? newline then
        prefix ++ glyphLoop s xLeft xLeft
                    (PrimFloat.add y (PrimFloat.mul h (lineSpacing s))) rest
      else if str =? tab then
        prefix ++ glyphLoop s xLeft
                    (PrimFloat.add x (PrimFloat.mul w (float64_of_int (tabSpaces s))))
                    y rest
      else
        let str := if (str =? 0x2717) || (str =? 0x02E3) then 0xD7 else str in
        let underline :=
          if underlined (Settings cr) then
            [DrawLine x (PrimFloat.add y (scaled s 4))
               (PrimFloat.add x w) (PrimFloat.add y (scaled s 4));
             SetLineWidth (scaled s 1);
             Stroke]
          else [] in
        prefix ++ DrawString str x y :: underline
          ++ glyphLoop s xLeft (PrimFloat.add x w) y rest
  end.

End GlyphLoop.

(** ** Rasters: the part of Go's [image] package that [WritePNG] calls *)

Record Point : Type := mkPoint { X : Z; Y : Z }.
Record Rectangle : Type := mkRectangle { Min : Point; Max : Point }.

(** [image.Rect]: swaps the coordinates of an axis when they come in the
    wrong order, so that [Min <= Max]. *)
Definition image_Rect (x0 y0 x1 y1 : Z) : Rectangle :=
  let '(x0, x1) := if x0 >? x1 then (x1, x0) else (x0, x1) in
  let '(y0, y1) := if y0 >? y1 then (y1, y0) else (y0, y1) in
  mkRectangle (mkPoint x0 y0) (mkPoint x1 y1).

Definition ZR : Rectangle := mkRectangle (mkPoint 0 0) (mkPoint 0 0).

Definition Rectangle_Empty (r : Rectangle) : bool :=
  (X (Min r) >=? X (Max r)) || (Y (Min r) >=? Y (Max r)).

Definition Rectangle_Dx (r : Rectangle) : Z := X (Max r) - X (Min r).
Definition Rectangle_Dy (r : Rectangle) : Z := Y (Max r) - Y (Min r).

Definition Rectangle_Intersect (r s : Rectangle) : Rectangle :=
  let minX := if X (Min r) <? X (Min s) then X (Min s) else X (Min r) in
  let minY := if Y (Min r) <? Y (Min s) then Y (Min s) else Y (Min r) in
  let maxX := if X (Max r) >? X (Max s) then X (Max s) else X (Max r) in
  let maxY := if Y (Max r) >? Y (Max s) then Y (Max s) else Y (Max r) in
  let r := mkRectangle (mkPoint minX minY) (mkPoint maxX maxY) in
  if Rectangle_Empty r then ZR else r.

(** [Point.In]: the rectangle is half open, [Max] lies outside. *)
Definition Point_In (x y : Z) (r : Rectangle) : bool :=
  (X (Min r) <=? x) && (x <? X (Max r)) && (Y (Min r) <=? y) && (y <? Y (Max r)).

Definition transparentColor : RGBAColor := mkColor 0 0 0 0.

(** An [*image.RGBA] seen through its interface: its bounds and the colour
    stored for each position.  A sub-image shares the pixel store of the
    image it was cut from, hence the same [pixel] function. *)
Record RGBA : Type := mkRGBA { Rect : Rectangle; pixel : Z -> Z -> RGBAColor }.

Definition emptyRGBA : RGBA := mkRGBA ZR (fun _ _ => transparentColor).

Definition RGBA_Bounds (p : RGBA) : Rectangle := Rect p.

(** [RGBA.At]: the zero colour outside the bounds. *)
Definition RGBA_At (p : RGBA) (x y : Z) : RGBAColor :=
  if Point_In x y (Rect p) then pixel p x y else transparentColor.

(** [color.RGBA.RGBA()]: each 8-bit channel widened to 16 bits. *)
Definition color_RGBA (c : RGBAColor) : Z * Z * Z * Z :=
  let widen v := Z.lor v (Z.shiftl v 8) in
  (widen (cR c), widen (cG c), widen (cB c), widen (cA c)).

(** [RGBA.SubImage]: [&RGBA{}] when the intersection is empty. *)
Definition RGBA_SubImage (p : RGBA) (r : Rectangle) : RGBA :=
  let r := Rectangle_Intersect r (Rect p) in
  if Rectangle_Empty r then emptyRGBA else mkRGBA r (pixel p).

(** ** The clipping stage of [WritePNG] *)

(** [for i := from; i < to; i++], run for its [to - from] rounds. *)
Fixpoint forRange {A : Type} (rounds : nat) (i : Z) (body : Z -> A -> A) (st : A) : A :=
  match rounds with
  | O => st
  | S rounds' => forRange rounds' (i + 1) body (body i st)
  end.

(** The four running bounds: [minX, minY, maxX, maxY]. *)
Definition ScanState : Type := (Z * Z * Z * Z)%type.

Definition sentinelBounds : ScanState := (MaxInt, MaxInt, 0, 0).

Definition isTransparent (p : RGBA) (x y : Z) : bool :=
  let '(r, g, b, a) := color_RGBA (RGBA_At p x y) in
  (r =? 0) && (g =? 0) && (b =? 0) && (a =? 0).

(** The body of the inner loop. *)
Definition scanPixel (p : RGBA) (x y : Z) (st : ScanState) : ScanState :=
  let '(minX, minY, maxX, maxY) := st in
  if negb (isTransparent p x y) then
    let minX := if x <? minX then x else minX in
    let minY := if y <? minY then y else minY in
    let maxX := if x >? maxX then x else maxX in
    let maxY := if y >? maxY then y else maxY in
    (minX, minY, maxX, maxY)
  else st.

Definition scanColumn (p : RGBA) (x : Z) (st : ScanState) : ScanState :=
  let bounds := RGBA_Bounds p in
  forRange (Z.to_nat (Y (Max bounds) - Y (Min bounds))) (Y (Min bounds))
    (scanPixel p x) st.

Definition scanBounds (p : RGBA) : ScanState :=
  let bounds := RGBA_Bounds p in
  forRange (Z.to_nat (X (Max bounds) - X (Min bounds))) (X (Min bounds))
    (scanColumn p) sentinelBounds.

(** The rectangle handed to [SubImage]. *)
Definition clipRectangle (p : RGBA) : Rectangle :=
  let '(minX, minY, maxX, maxY) := scanBounds p in
  image_Rect minX minY maxX maxY.

Definition clip (p : RGBA) : RGBA := RGBA_SubImage p (clipRectangle p).

(** An [image.Image] is an [*image.RGBA] or a value of another type. *)
Inductive Image : Type :=
| ImageRGBA (p : RGBA)
| ImageOther (bounds : Rectangle) (at_ : Z -> Z -> Z * Z * Z * Z).

(** ** Writers and the two outputs *)

Class io_Writer (W : Type) : Type :=
  Write : W -> list Z -> W * (Z * option error).

(** An in-memory writer in the manner of [bytes.Buffer]. *)
Definition Buffer : Type := list Z.

#[global] Instance Buffer_Writer : io_Writer Buffer :=
  fun buf p => (buf ++ p, (Z.of_nat (length p), None)).

(** [bunt.String.String()], as bytes: the symbols in order and, while
    colours are in use, the escape sequence of the new style word in front
    of every rune whose style word differs from the one in force, closed
    by the reset sequence when the style word in force at the end is not 0.
    Whether colours are in use ([bunt.UseColors()], the colour setting and
    the terminal) and the escape text of a style word ([renderSGR], which
    follows the colour depth of the terminal; for the word 0 it is the
    reset sequence) belong to the [bunt] library and its environment. *)
Section StyledText.

Variable UseColors : bool.
Variable renderSGR : Z -> list Z.

Fixpoint String_loop (current : Z) (s : bunt_String) : list Z :=
  match s with
  | [] => if negb (current =? 0) then renderSGR 0 else []
  | coloredRune :: rest =>
      if negb (current =? Settings coloredRune) && UseColors then
        renderSGR (Settings coloredRune)
          ++ encodeRune (Symbol coloredRune)
          ++ String_loop (Settings coloredRune) rest
      else
        encodeRune (Symbol coloredRune) ++ String_loop current rest
  end.

Definition String_String (s : bunt_String) : list Z := String_loop 0 s.

End StyledText.

Section Output.

Context {W : Type} `{io_Writer W}.

(** The composition [s.image()] and the encoder [png.Encode] are external,
    and so are the colour setting and the escape sequences of [bunt]. *)
Variable render : Scaffold -> error + Image.
Variable png_Encode : W -> Image -> W * option error.
Variable UseColors : bool.
Variable renderSGR : Z -> list Z.

Definition WritePNG (s : Scaffold) (w : W) : W * option error :=
  match render s with
  | inl err => (w, Some err)
  | inr img =>
      let img :=
        if clipCanvas s then
          match img with
          | ImageRGBA imgRGBA => ImageRGBA (clip imgRGBA)
          | _ => img
          end
        else img in
      png_Encode w img
  end.

Definition WriteRaw (s : Scaffold) (w : W) : W * option error :=
  let '(w, (_, err)) := Write w (String_String UseColors renderSGR (content s)) in
  (w, err).

End Output.

(** ** Font resolution: [LoadFontsFromEmbedded] *)

Record DirEntry : Type := mkDirEntry { Name : string; IsDir : bool }.

(** [strings.HasSuffix]:
    [len(s) >= len(suffix) && s[len(s)-len(suffix):] == suffix]. *)
Definition HasSuffix (s suffix : string) : bool :=
  let s := list_ascii_of_string s in
  let suffix := list_ascii_of_string suffix in
  (length suffix <=? length s)%nat
  && bool_decide (drop (length s - length suffix) s = suffix).

Definition styles : list string := ["Regular"; "Bold"; "Italic"; "BoldItalic"]%string.

(** [fmt.Sprintf("-%s.ttf", style)] *)
Definition styleSuffix (style : string) : string := "-" +:+ style +:+ ".ttf".

(** The four ways the function fails, with the operands of its
    [fmt.Errorf] calls. *)
Inductive FontError : Type :=
| ReadDirFailed (cause : error)
| DuplicateFont (style existing name : string)
| MissingFont (style dir : string)
| LoadFailed (style : string) (cause : error).

Definition FontError_error (e : FontError) : error :=
  match e with
  | ReadDirFailed cause => ErrWrap "failed to read embedded font directory: " cause
  | DuplicateFont style existing name =>
      ErrMsg ("multiple files found for " +:+ style +:+ " style: "
              +:+ existing +:+ " and " +:+ name)
  | MissingFont style dir =>
      ErrMsg ("missing required font file: no file matching *-" +:+ style
              +:+ ".ttf found in " +:+ dir)
  | LoadFailed style cause => ErrWrap ("failed to load " +:+ style +:+ " font: ") cause
  end.

(** The inner [for _, style := range styles] of the directory scan. *)
Fixpoint matchStyles (name : string) (sts : list string)
    (foundFiles : gmap string string) : FontError + gmap string string :=
  match sts with
  | [] => inr foundFiles
  | style :: rest =>
      let suffix := styleSuffix style in
      if HasSuffix name suffix then
        match foundFiles !! style with
        | Some existing => inl (DuplicateFont style existing name)
        | None => matchStyles name rest (<[style := name]> foundFiles)
        end
      else matchStyles name rest foundFiles
  end.

(** The outer [for _, entry := range entries]. *)
Fixpoint scanEntries (entries : list DirEntry) (foundFiles : gmap string string)
  : FontError + gmap string string :=
  match entries with
  | [] => inr foundFiles
  | entry :: rest =>
      if IsDir entry || negb (HasSuffix (Name entry) ".ttf") then
        scanEntries rest foundFiles
      else
        match matchStyles (Name entry) styles foundFiles with
        | inl err => inl err
        | inr foundFiles => scanEntries rest foundFiles
        end
  end.

(** "Verify all required fonts were found": the first style without a file. *)
Fixpoint verifyStyles (sts : list string) (foundFiles : gmap string string)
    (dir : string) : option FontError :=
  match sts with
  | [] => None
  | style :: rest =>
      match foundFiles !! style with
      | None => Some (MissingFont style dir)
      | Some _ => verifyStyles rest foundFiles dir
      end
  end.

Section FontLoading.

(** The embedded file system: [fs.ReadDir], and [loadFontFileFromFS]
    applied to [filepath.Join(dir, file)]. *)
Variable ReadDir : string -> error + list DirEntry.
Variable loadFontFile : string -> string -> error + Face.

Fixpoint loadStyles (sts : list string) (dir : string)
    (foundFiles : gmap string string) (faces : gmap string Face)
  : FontError + gmap string Face :=
  match sts with
  | [] => inr faces
  | style :: rest =>
      match loadFontFile dir (default ""%string (foundFiles !! style)) with
      | inl err => inl (LoadFailed style err)
      | inr face => loadStyles rest dir foundFiles (<[style := face]> faces)
      end
  end.

(** A [nil] face of the result is [None]. *)
Definition LoadFontsFromEmbedded (dir : string)
  : FontError + (option Face * option Face * option Face * option Face) :=
  match ReadDir dir with
  | inl err => inl (ReadDirFailed err)
  | inr entries =>
      match scanEntries entries ∅ with
      | inl err => inl err
      | inr foundFiles =>
          match verifyStyles styles foundFiles dir with
          | Some err => inl err
          | None =>
              match loadStyles styles dir foundFiles ∅ with
              | inl err => inl err
              | inr faces =>
                  inr (faces !! "Regular"%string, faces !! "Bold"%string,
                       faces !! "Italic"%string, faces !! "BoldItalic"%string)
              end
          end
      end
  end.

End FontLoading.

(** ** The data-model table of the style word, as the specification words it *)

(** Bits 2-4 of the style word: the style class. *)
Definition styleClass (settings : Z) : Z := Z.land (Z.shiftr settings 2) 7.

(** The documented face of each style class; 4 is the underline class and
    5, 6, 7 are unassigned. *)
Definition documentedFace (class : Z) : FontStyle :=
  match class with
  | 0 => Regular
  | 1 => Bold
  | 2 => Italic
  | 3 => BoldItalic
  | 4 => Regular
  | _ => Regular
  end.

(** The encoding of the foreground, in the words of the data-model table
    (the encoder itself belongs to the [bunt] library): bits 8-31, one byte
    per channel with R low, G mid, B high, flagged by bit 0; [base] supplies
    all the other bits of the word. *)
Definition spec_encodeForeground (base r g b : Z) : Z :=
  Z.lor (Z.ldiff base 0xFFFFFF00)
    (Z.lor 1 (Z.lor (Z.shiftl r 8) (Z.lor (Z.shiftl g 16) (Z.shiftl b 24)))).

(** The encoding of the background, in the words of the same table:
    bits 32-55 with the same byte layout, flagged by bit 1. *)
Definition spec_encodeBackground (base r g b : Z) : Z :=
  Z.lor (Z.ldiff base 0xFFFFFF00000000)
    (Z.lor 2 (Z.lor (Z.shiftl r 32) (Z.lor (Z.shiftl g 40) (Z.shiftl b 48)))).

(** ** Derived notions used to state the properties *)

(** Content whose runes all carry the style word 0. *)
Definition unstyled (s : bunt_String) : Prop :=
  Forall (fun cr => Settings cr = 0) s.

(** The synthetic break spliced in front of [cr]. *)
Definition synthetic (cr : ColoredRune) : ColoredRune :=
  mkColoredRune (Settings cr) newline.

Definition isNewline (cr : ColoredRune) : bool := Symbol cr =? newline.

(** A run cut into visual lines of [lineLen] runes, each line opened by a
    synthetic break that carries the style of the line's first rune.
    [fuel] bounds the number of lines; the length of the run is enough. *)
Fixpoint brokenLines (fuel lineLen : nat) (l : bunt_String) : bunt_String :=
  match fuel with
  | O => []
  | S fuel' =>
      match l with
      | [] => []
      | cr :: _ =>
          synthetic cr :: firstn lineLen l
            ++ brokenLines fuel' lineLen (skipn lineLen l)
      end
  end.

Section Sessions.

Variable termColumns : Z.
Variable Reader : Type.
Variable ParseStream : Reader -> error + bunt_String.

(** Successive [AddContent] calls on one scaffold. *)
Definition AddContents (s : Scaffold) (inputs : list Reader) : Scaffold :=
  fold_left (fun s input => fst (AddContent termColumns ParseStream s input))
    inputs s.

(** What one call appends when it runs on scaffold [s]: nothing when the
    tokenizer fails, else the wrapped fragment. *)
Definition ingestedFragment (s : Scaffold) (input : Reader) : bunt_String :=
  match ParseStream input with
  | inl _ => []
  | inr parsed => wrapLoop termColumns s 0 [] parsed
  end.

End Sessions.

Arguments AddContents termColumns {Reader} ParseStream s inputs.
Arguments ingestedFragment termColumns {Reader} ParseStream s input.

(** ** Sample inputs *)

(** A monospace face: every glyph advances 6px, the line height is 14px
    and the ascent 11px, in 26.6 fixed point. *)
Definition monoFace : Face :=
  mkFace (fun _ => Some (6 * 64)) (fun _ _ => 0) (14 * 64) (11 * 64).

Definition lightGray : RGBAColor := mkColor 0xD3 0xD3 0xD3 0xFF.

(** An empty scaffold with unlimited columns and line spacing 1.0. *)
Definition plainScaffold : Scaffold :=
  mkScaffold [] PrimFloat.one 0 lightGray false false false ""%string 0
    PrimFloat.zero PrimFloat.zero PrimFloat.zero PrimFloat.zero
    monoFace monoFace monoFace monoFace PrimFloat.one 4.

(** Unstyled text. *)
Definition plain (text : list rune) : bunt_String := map (mkColoredRune 0) text.

(** A bold "a" followed by a plain "b", and the escape sequences a colour
    terminal gets for the two style words of that text: ESC[1m for bold
    (the word 4) and ESC[0m, the reset, for the word 0. *)
Definition boldThenPlain : bunt_String :=
  [mkColoredRune 4 97; mkColoredRune 0 98].

Definition sampleSGR (settings : Z) : list Z :=
  if settings =? 0 then [27; 91; 48; 109] else [27; 91; 49; 109].

(** A tokenizer that hands over an already tokenized fragment. *)
Definition parsedReader : bunt_String -> error + bunt_String := inr.

(** "abc", "ab", "cd", "abcd" and "hello\n". *)
Definition text_abc : list rune := [97; 98; 99].
Definition text_ab : list rune := [97; 98].
Definition text_cd : list rune := [99; 100].
Definition text_abcd : list rune := [97; 98; 99; 100].
Definition text_hello_nl : list rune := [104; 101; 108; 108; 111; 10].

(** A 10x10 canvas, transparent but for one opaque white pixel at (5,5). *)
Definition dotCanvas : RGBA :=
  mkRGBA (image_Rect 0 0 10 10)
    (fun x y => if (x =? 5) && (y =? 5) then mkColor 255 255 255 255
                else transparentColor).

(** A fully transparent 4x3 canvas. *)
Definition blankCanvas : RGBA :=
  mkRGBA (image_Rect 0 0 4 3) (fun _ _ => transparentColor).

(** The failures of the directory scan. *)
Definition isDuplicate (e : FontError) : Prop :=
  exists style existing name, e = DuplicateFont style existing name.

(** What a guard for the fully transparent canvas would ensure: the
    rectangle handed to [SubImage] is not the one built from the untouched
    sentinel bounds. *)
Definition avoidsSentinelRectangle (p : RGBA) : Prop :=
  clipRectangle p <> image_Rect MaxInt MaxInt 0 0.

(** A non-directory entry whose name ends with the suffix of [style]. *)
Definition matchesStyle (entry : DirEntry) (style : string) : bool :=
  negb (IsDir entry) && HasSuffix (Name entry) (styleSuffix style).

(** A font directory that lacks the italic variants. *)
Definition fooFonts : list DirEntry :=
  [mkDirEntry "Foo-Bold.ttf" false; mkDirEntry "Foo-Regular.ttf" false].

(** ** Further notions for the properties of the whole engine *)

(** [out] is [input] with synthetic breaks spliced in front of some of its
    runes, and nothing else changed. *)
Inductive BreaksSpliced : bunt_String -> bunt_String -> Prop :=
| spliced_nil : BreaksSpliced [] []
| spliced_keep (cr : ColoredRune) (input out : bunt_String) :
    BreaksSpliced input out -> BreaksSpliced (cr :: input) (cr :: out)
| spliced_break (cr : ColoredRune) (input out : bunt_String) :
    BreaksSpliced input out ->
    BreaksSpliced (cr :: input) (synthetic cr :: cr :: out).

(** A line of at most [limit] runes. *)
Definition lineFits (limit : Z) (line : list rune) : Prop :=
  Z.of_nat (length line) <= limit.

(** The control symbols of the glyph loop, and the stand-in it draws for the
    two glyphs the bundled fonts lack. *)
Definition isControl (r : rune) : bool := (r =? newline) || (r =? tab).

Definition substituted (r : rune) : rune :=
  if (r =? 0x2717) || (r =? 0x02E3) then 0xD7 else r.

(** The strings drawn and the faces set by a run of drawing calls. *)
Definition drawnStrings (ops : list DrawOp) : list rune :=
  flat_map (fun op => match op with DrawString str _ _ => [str] | _ => [] end) ops.

Definition facesSet (ops : list DrawOp) : list FontStyle :=
  flat_map (fun op => match op with SetFontFace f => [f] | _ => [] end) ops.

(** The channels of a [SetRGB255] call are byte values. *)
Definition channelsInRange (op : DrawOp) : Prop :=
  match op with
  | SetRGB255 r g b => 0 <= r <= 255 /\ 0 <= g <= 255 /\ 0 <= b <= 255
  | _ => True
  end.

(** A pixel the scan of [WritePNG] counts as non-transparent. *)
Definition solidAt (p : RGBA) (x y : Z) : Prop := isTransparent p x y = false.

(** The running bounds enclose the position [(x, y)]. *)
Definition encloses (st : ScanState) (x y : Z) : Prop :=
  let '(minX, minY, maxX, maxY) := st in
  minX <= x <= maxX /\ minY <= y <= maxY.

(** Each running bound still is its sentinel or is the coordinate of some
    non-transparent pixel. *)
Definition attained (p : RGBA) (st : ScanState) : Prop :=
  let '(minX, minY, maxX, maxY) := st in
  (minX = MaxInt \/ exists y, solidAt p minX y)
  /\ (minY = MaxInt \/ exists x, solidAt p x minY)
  /\ (maxX = 0 \/ exists y, solidAt p maxX y)
  /\ (maxY = 0 \/ exists x, solidAt p x maxY).

(** A canvas whose bounds lie between 0 and [MaxInt], like every canvas
    the drawing context creates. *)
Definition inFirstQuadrant (p : RGBA) : Prop :=
  0 <= X (Min (Rect p)) /\ 0 <= Y (Min (Rect p))
  /\ X (Max (Rect p)) <= MaxInt /\ Y (Max (Rect p)) <= MaxInt.

(** A 10x10 canvas with an opaque block from (2,3) to (4,7), corners
    included. *)
Definition blockCanvas : RGBA :=
  mkRGBA (image_Rect 0 0 10 10)
    (fun x y => if (2 <=? x) && (x <=? 4) && (3 <=? y) && (y <=? 7)
                then mkColor 0 0 0 255 else transparentColor).

(** Every file name in the map is the name of a listed file that matches
    the style it is kept under. *)
Definition recorded (entries : list DirEntry) (found : gmap string string) : Prop :=
  forall style name,
    found !! style = Some name ->
    exists e, In e entries /\ Name e = name /\ matchesStyle e style = true.

(** The listing holds [e1] and, after it, [e2], both files for [style]. *)
Definition twoFilesFor (entries : list DirEntry) (style : string)
    (e1 e2 : DirEntry) : Prop :=
  exists pre mid post,
    entries = pre ++ e1 :: mid ++ e2 :: post
    /\ matchesStyle e1 style = true /\ matchesStyle e2 style = true.

(** An entry that is a file for one of the four styles. *)
Definition relevantEntry (e : DirEntry) : bool := existsb (matchesStyle e) styles.

(** [face] is the face loaded from a listed file that matches [style]. *)
Definition loadedFrom (loadFontFile : string -> string -> error + Face)
    (dir : string) (entries : list DirEntry) (style : string)
    (face : option Face) : Prop :=
  exists e f,
    face = Some f /\ In e entries /\ matchesStyle e style = true
    /\ loadFontFile dir (Name e) = inr f.

(** Every face in the map was loaded from the file recorded for its style. *)
Definition facesLoadedFrom (loadFontFile : string -> string -> error + Face)
    (dir : string) (found : gmap string string) (faces : gmap string Face) : Prop :=
  forall style f,
    faces !! style = Some f ->
    loadFontFile dir (default ""%string (found !! style)) = inr f.

(** A complete font directory with a stray file and a sub-directory. *)
Definition fullFonts : list DirEntry :=
  [mkDirEntry "Foo-Bold.ttf" false; mkDirEntry "Foo-BoldItalic.ttf" false;
   mkDirEntry "Foo-Italic.ttf" false; mkDirEntry "Foo-Regular.ttf" false;
   mkDirEntry "LICENSE.txt" false; mkDirEntry "old-Regular.ttf" true].

(** Two regular files. *)
Definition twoRegulars : list DirEntry :=
  [mkDirEntry "A-Regular.ttf" false; mkDirEntry "B-Regular.ttf" false].

(** * Properties *)

(** ** Style words *)

Lemma byte_bits_high (v i : Z) : 0 <= v <= 255 -> 8 <= i -> Z.testbit v i = false.
Proof.
  intros Hv Hi.
  destruct (Z.eq_dec v 0) as [->|Hne]; [apply Z.testbit_0_l|].
  apply Z.bits_above_log2; [lia|].
  assert (Z.log2 v < 8); [|lia].
  apply Z.log2_lt_pow2; lia.
Qed.

Lemma land_0x1C_class (settings : Z) :
  Z.land settings 0x1C = 4 * styleClass settings.
Proof.
  unfold styleClass.
  change 4 with (2 ^ 2). rewrite Z.mul_comm, <- Z.shiftl_mul_pow2 by lia.
  change 0x1C with (Z.shiftl 7 2).
  Z.bitblast. rewrite (Z.testbit_neg_r 7 l) by lia. simpl. now rewrite andb_false_r.
Qed.

Lemma styleClass_range (settings : Z) : 0 <= styleClass settings <= 7.
Proof.
  unfold styleClass.
  replace (Z.land (Z.shiftr settings 2) 7) with (Z.shiftr settings 2 mod 8)
    by (symmetry; apply (Z.land_ones _ 3); lia).
  pose proof (Z.mod_pos_bound (Z.shiftr settings 2) 8). lia.
Qed.

Lemma fontFaceOf_class (settings : Z) :
  fontFaceOf settings = documentedFace (styleClass settings).
Proof.
  unfold fontFaceOf. rewrite land_0x1C_class.
  pose proof (styleClass_range settings) as Hc.
  assert (Hcases : styleClass settings = 0 \/ styleClass settings = 1
                   \/ styleClass settings = 2 \/ styleClass settings = 3
                   \/ styleClass settings = 4 \/ styleClass settings = 5
                   \/ styleClass settings = 6 \/ styleClass settings = 7) by lia.
  destruct Hcases as [-> | [-> | [-> | [-> | [-> | [-> | [-> | ->]]]]]]];
    reflexivity.
Qed.

Lemma underlined_class (settings : Z) :
  underlined settings = (styleClass settings =? 4).
Proof.
  unfold underlined. rewrite land_0x1C_class.
  destruct (Z.eqb_spec (styleClass settings) 4) as [-> | Hne]; [reflexivity|].
  apply Z.eqb_neq. lia.
Qed.

(** The stroke under a glyph: drawn for the underline class, and never for
    the control symbols, which leave the loop round before any drawing. *)
Lemma glyphLoop_stroke (glyphSize : Face -> rune -> float64 * float64)
    (s : Scaffold) (xLeft x y : float64) (cr : ColoredRune) :
  In Stroke (glyphLoop glyphSize s xLeft x y [cr])
  <-> underlined (Settings cr) = true
      /\ validRune (Symbol cr) <> newline /\ validRune (Symbol cr) <> tab.
Proof.
  cbn [glyphLoop]. destruct (glyphSize _ _) as [w h].
  destruct (backgroundOf (Settings cr)) as [[[br bg] bb]|];
    destruct (foregroundOf (Settings cr)) as [[[fr fg] fb]|];
    destruct (Z.eqb_spec (validRune (Symbol cr)) newline) as [Hnl|Hnl];
    try destruct (Z.eqb_spec (validRune (Symbol cr)) tab) as [Htab|Htab];
    destruct (underlined (Settings cr));
    cbn [In app]; intuition (discriminate || congruence).
Qed.

(** C4.  Whatever the style word, the glyph loop sets the face its
    style-class field (bits 2-4, a value from 0 to 7) documents: 0 Regular,
    1 Bold, 2 Italic, 3 BoldItalic, 4 Regular; the classes 5, 6 and 7 fall
    back to Regular; and the underline stroke is drawn exactly for class 4
    (on symbols other than newline and tab, which are not drawn at all). *)
Theorem style_class_resolves_face :
  forall (glyphSize : Face -> rune -> float64 * float64) (s : Scaffold)
         (xLeft x y : float64) (cr : ColoredRune) (rest : bunt_String),
    let class := styleClass (Settings cr) in
    0 <= class <= 7
    /\ fontFaceOf (Settings cr) = documentedFace class
    /\ underlined (Settings cr) = (class =? 4)
    /\ documentedFace 5 = Regular /\ documentedFace 6 = Regular
    /\ documentedFace 7 = Regular
    /\ (exists ops,
          glyphLoop glyphSize s xLeft x y (cr :: rest)
          = SetFontFace (documentedFace class) :: ops)
    /\ (In Stroke (glyphLoop glyphSize s xLeft x y [cr])
        <-> class = 4 /\ validRune (Symbol cr) <> newline
            /\ validRune (Symbol cr) <> tab).
Proof.
  intros glyphSize s xLeft x y cr rest class. subst class.
  split; [apply styleClass_range|].
  split; [apply fontFaceOf_class|].
  split; [apply underlined_class|].
  do 3 (split; [reflexivity|]).
  split.
  - cbn [glyphLoop]. rewrite fontFaceOf_class.
    destruct (glyphSize _ _) as [w h].
    destruct (validRune (Symbol cr) =? newline);
      [|destruct (validRune (Symbol cr) =? tab)]; eexists; reflexivity.
  - rewrite glyphLoop_stroke, underlined_class, Z.eqb_eq. reflexivity.
Qed.

Ltac clear_high_bits :=
  repeat match goal with
         | |- context [Z.testbit ?v ?i] =>
             first [ rewrite (Z.testbit_neg_r v i) by lia
                   | rewrite (byte_bits_high v i) by lia ]
         end;
  repeat match goal with
         | |- context [Z.testbit ?v ?i] => destruct (Z.testbit v i)
         end;
  try reflexivity.

Section ColourFields.

Variables base r g b : Z.
Hypothesis Hr : 0 <= r <= 255.
Hypothesis Hg : 0 <= g <= 255.
Hypothesis Hb : 0 <= b <= 255.

Lemma spec_encodeForeground_flag : Z.land (spec_encodeForeground base r g b) 0x01 = 1.
Proof.
  unfold spec_encodeForeground. change 0xFFFFFF00 with (Z.shiftl (Z.ones 24) 8).
  Z.bitblast.
Qed.

Lemma spec_encodeForeground_red :
  Z.land (Z.shiftr (spec_encodeForeground base r g b) 8) 0xFF = r.
Proof.
  unfold spec_encodeForeground. change 0xFFFFFF00 with (Z.shiftl (Z.ones 24) 8).
  change 0xFF with (Z.ones 8).
  Z.bitblast; clear_high_bits.
Qed.

Lemma spec_encodeForeground_green :
  Z.land (Z.shiftr (spec_encodeForeground base r g b) 16) 0xFF = g.
Proof.
  unfold spec_encodeForeground. change 0xFFFFFF00 with (Z.shiftl (Z.ones 24) 8).
  change 0xFF with (Z.ones 8).
  Z.bitblast; clear_high_bits.
Qed.

Lemma spec_encodeForeground_blue :
  Z.land (Z.shiftr (spec_encodeForeground base r g b) 24) 0xFF = b.
Proof.
  unfold spec_encodeForeground. change 0xFFFFFF00 with (Z.shiftl (Z.ones 24) 8).
  change 0xFF with (Z.ones 8).
  Z.bitblast; clear_high_bits.
Qed.

Lemma spec_encodeBackground_flag : Z.land (spec_encodeBackground base r g b) 0x02 = 2.
Proof.
  unfold spec_encodeBackground. change 0xFFFFFF00000000 with (Z.shiftl (Z.ones 24) 32).
  Z.bitblast.
Qed.

Lemma spec_encodeBackground_red :
  Z.land (Z.shiftr (spec_encodeBackground base r g b) 32) 0xFF = r.
Proof.
  unfold spec_encodeBackground. change 0xFFFFFF00000000 with (Z.shiftl (Z.ones 24) 32).
  change 0xFF with (Z.ones 8).
  Z.bitblast; clear_high_bits.
Qed.

Lemma spec_encodeBackground_green :
  Z.land (Z.shiftr (spec_encodeBackground base r g b) 40) 0xFF = g.
Proof.
  unfold spec_encodeBackground. change 0xFFFFFF00000000 with (Z.shiftl (Z.ones 24) 32).
  change 0xFF with (Z.ones 8).
  Z.bitblast; clear_high_bits.
Qed.

Lemma spec_encodeBackground_blue :
  Z.land (Z.shiftr (spec_encodeBackground base r g b) 48) 0xFF = b.
Proof.
  unfold spec_encodeBackground. change 0xFFFFFF00000000 with (Z.shiftl (Z.ones 24) 32).
  change 0xFF with (Z.ones 8).
  Z.bitblast; clear_high_bits.
Qed.

End ColourFields.

(** C5.  Decoding inverts encoding on each channel: a style word that
    carries [(r, g, b)], each in 0..255, in its foreground field (bits 8-31,
    R low, G mid, B high, flagged by bit 0) makes the glyph loop select
    exactly [(r, g, b)] as the glyph colour, and likewise for the background
    field (bits 32-55, flagged by bit 1) and the fill colour; the other
    bits of the word do not matter. *)
Theorem colour_decode_inverts_encode (base r g b : Z) :
  0 <= r <= 255 -> 0 <= g <= 255 -> 0 <= b <= 255 ->
  foregroundOf (spec_encodeForeground base r g b) = Some (r, g, b)
  /\ backgroundOf (spec_encodeBackground base r g b) = Some (r, g, b).
Proof.
  intros Hr Hg Hb. split.
  - unfold foregroundOf.
    rewrite spec_encodeForeground_flag, spec_encodeForeground_red, spec_encodeForeground_green,
      spec_encodeForeground_blue by assumption.
    reflexivity.
  - unfold backgroundOf.
    rewrite spec_encodeBackground_flag, spec_encodeBackground_red, spec_encodeBackground_green,
      spec_encodeBackground_blue by assumption.
    reflexivity.
Qed.

(** The window-button red [#ED655A] packed over an underline-class word. *)
Lemma colour_decode_inverts_encode_witness :
  (0 <= 0xED <= 255 /\ 0 <= 0x65 <= 255 /\ 0 <= 0x5A <= 255)
  /\ foregroundOf (spec_encodeForeground 0x10 0xED 0x65 0x5A) = Some (0xED, 0x65, 0x5A)
  /\ backgroundOf (spec_encodeBackground 0x10 0xED 0x65 0x5A) = Some (0xED, 0x65, 0x5A).
Proof.
  split; [lia|].
  apply (colour_decode_inverts_encode 0x10 0xED 0x65 0x5A); lia.
Defined.

(** ** Ingestion *)

Section IngestionFacts.

Variable termColumns : Z.

Local Abbreviation wrap s := (wrapLoop termColumns s).
Local Abbreviation cols s := (GetFixedColumns termColumns s).

Lemma wrapLoop_acc (s : Scaffold) (parsed : bunt_String) :
  forall counter tmp,
    wrap s counter tmp parsed = tmp ++ wrap s counter [] parsed.
Proof.
  induction parsed as [|cr rest IH]; intros counter tmp; cbn [wrapLoop].
  - now rewrite app_nil_r.
  - destruct (_ >? _).
    + rewrite IH, (IH 0 (([] ++ _) ++ _)). cbn. now rewrite <- !app_assoc.
    + rewrite IH, (IH _ ([] ++ _)). cbn. now rewrite <- !app_assoc.
Qed.

(** One round of the loop, with the accumulator factored out. *)
Lemma wrapLoop_cons (s : Scaffold) (counter : Z) (cr : ColoredRune)
    (rest : bunt_String) :
  wrap s counter [] (cr :: rest) =
    let counter' := if isNewline cr then 0 else counter + 1 in
    if counter' >? cols s
    then synthetic cr :: cr :: wrap s 0 [] rest
    else cr :: wrap s counter' [] rest.
Proof.
  cbn [wrapLoop]. unfold isNewline, synthetic. cbv zeta.
  destruct (_ >? _); rewrite wrapLoop_acc; reflexivity.
Qed.

(** The loop reads the scaffold through its column setting only. *)
Lemma wrapLoop_columns (s s' : Scaffold) (parsed : bunt_String) :
  columns s' = columns s ->
  forall counter tmp, wrap s' counter tmp parsed = wrap s counter tmp parsed.
Proof.
  intros Hc. induction parsed as [|cr rest IH]; intros counter tmp;
    cbn [wrapLoop]; [reflexivity|].
  unfold GetFixedColumns. rewrite Hc.
  destruct (_ >? _); apply IH.
Qed.

(** A run that fits in what is left of the line passes unchanged. *)
Lemma wrapLoop_fits (s : Scaffold) (l1 l2 : bunt_String) :
  forallb (fun cr => negb (isNewline cr)) l1 = true ->
  forall counter,
    0 <= counter ->
    counter + Z.of_nat (length l1) <= cols s ->
    wrap s counter [] (l1 ++ l2)
    = l1 ++ wrap s (counter + Z.of_nat (length l1)) [] l2.
Proof.
  induction l1 as [|cr l1 IH]; intros Hplain counter Hc Hfit.
  - cbn. now rewrite Z.add_0_r.
  - cbn [forallb] in Hplain. apply andb_true_iff in Hplain as [Hcr Hplain].
    apply negb_true_iff in Hcr.
    cbn [app]. rewrite wrapLoop_cons, Hcr. cbv zeta.
    cbn [length] in Hfit |- *.
    destruct (Z.gtb_spec (counter + 1) (cols s)) as [Hgt|Hle]; [lia|].
    rewrite IH by (assumption || lia).
    do 3 f_equal. lia.
Qed.

(** At a full line the next plain rune is wrapped over; the counter
    restarts at 0 although that rune already sits on the new line. *)
Lemma wrapLoop_full (s : Scaffold) (cr : ColoredRune) (rest : bunt_String) :
  isNewline cr = false ->
  0 <= cols s ->
  wrap s (cols s) [] (cr :: rest) = synthetic cr :: cr :: wrap s 0 [] rest.
Proof.
  intros Hcr Hw. rewrite wrapLoop_cons, Hcr. cbv zeta.
  destruct (Z.gtb_spec (cols s + 1) (cols s)) as [Hgt|Hle]; [reflexivity|lia].
Qed.

Lemma forallb_firstn {A} (f : A -> bool) (n : nat) (l : list A) :
  forallb f l = true -> forallb f (firstn n l) = true.
Proof.
  revert l; induction n as [|n IH]; intros [|a l] H; cbn in *; try reflexivity.
  apply andb_true_iff in H as [Ha Hl]. now rewrite Ha, IH.
Qed.

Lemma forallb_skipn {A} (f : A -> bool) (n : nat) (l : list A) :
  forallb f l = true -> forallb f (skipn n l) = true.
Proof.
  revert l; induction n as [|n IH]; intros [|a l] H; cbn in *; try reflexivity;
    try assumption.
  apply andb_true_iff in H as [Ha Hl]. now apply IH.
Qed.

Lemma wrapLoop_plain_bounded (s : Scaffold) :
  0 <= cols s ->
  forall (bound : nat) (parsed : bunt_String),
    (length parsed <= bound)%nat ->
    forallb (fun cr => negb (isNewline cr)) parsed = true ->
    forall fuel,
      (length (skipn (Z.to_nat (cols s)) parsed) <= fuel)%nat ->
      wrap s 0 [] parsed
      = firstn (Z.to_nat (cols s)) parsed
          ++ brokenLines fuel (S (Z.to_nat (cols s)))
               (skipn (Z.to_nat (cols s)) parsed).
Proof.
  intros Hw. set (W := Z.to_nat (cols s)).
  induction bound as [|bound IH]; intros parsed Hlen Hplain fuel Hfuel.
  - destruct parsed; [|cbn in Hlen; lia].
    rewrite firstn_nil, skipn_nil. destruct fuel; reflexivity.
  - rewrite <- (firstn_skipn W parsed) at 1.
    rewrite wrapLoop_fits;
      [|now apply forallb_firstn|lia|rewrite length_firstn; lia].
    f_equal. rewrite Z.add_0_l.
    pose proof (forallb_skipn _ W _ Hplain) as Htail.
    destruct (skipn W parsed) as [|cr rest] eqn:Hskip.
    { destruct fuel; reflexivity. }
    assert (Hfull : length (firstn W parsed) = W).
    { rewrite length_firstn.
      assert (length (skipn W parsed) <> 0)%nat by (rewrite Hskip; cbn; lia).
      rewrite length_skipn in *. lia. }
    rewrite Hfull. unfold W at 1. rewrite Z2Nat.id by assumption.
    cbn [forallb] in Htail. apply andb_true_iff in Htail as [Hcr Hrest].
    apply negb_true_iff in Hcr.
    rewrite wrapLoop_full by assumption.
    destruct fuel as [|fuel]; [cbn in Hfuel; lia|].
    cbn [brokenLines firstn skipn]. f_equal. cbn [app]. f_equal.
    assert (Hrestlen : (length rest <= bound)%nat).
    { assert (length (skipn W parsed) = S (length rest)) as Hl
          by (rewrite Hskip; reflexivity).
      rewrite length_skipn in Hl. lia. }
    apply IH; [assumption|assumption|].
    rewrite length_skipn. cbn in Hfuel. lia.
Qed.

End IngestionFacts.


(** "abcd" at width 1 becomes "a", "bc", "d". *)
Example wrap_abcd_at_width_one :
  String_symbols (wrapLoop 80 (SetColumns plainScaffold 1) 0 [] (plain text_abcd))
  = [97; 10; 98; 99; 10; 100].
Proof. reflexivity. Qed.


(** Three columns' worth of plain text at a width of two or more does come
    out with exactly two synthetic breaks. *)
Lemma wrapLoop_three_widths (termColumns : Z) (s : Scaffold) (parsed : bunt_String) :
  2 <= GetFixedColumns termColumns s ->
  forallb (fun cr => negb (isNewline cr)) parsed = true ->
  Z.of_nat (length parsed) = 3 * GetFixedColumns termColumns s ->
  length (wrapLoop termColumns s 0 [] parsed) = (length parsed + 2)%nat.
Proof.
  intros Hw Hplain Hlen.
  rewrite (wrapLoop_plain_bounded termColumns s ltac:(lia) (length parsed)
             parsed (le_n _) Hplain (length parsed))
    by (rewrite length_skipn; lia).
  set (W := Z.to_nat (GetFixedColumns termColumns s)).
  assert (HW : (2 <= W)%nat) by lia.
  assert (Hn : length parsed = (3 * W)%nat) by lia.
  rewrite length_app, length_firstn.
  destruct (skipn W parsed) as [|c1 l1] eqn:H1.
  { apply (f_equal (@length _)) in H1. rewrite length_skipn in H1. cbn in H1. lia. }
  assert (Hl1 : length (c1 :: l1) = (2 * W)%nat)
    by (rewrite <- H1, length_skipn; lia).
  destruct (length parsed) as [|fuel] eqn:Hfuel; [lia|].
  cbn [brokenLines]. cbn [length]. rewrite length_app, length_firstn.
  destruct (skipn (S W) (c1 :: l1)) as [|c2 l2] eqn:H2.
  { apply (f_equal (@length _)) in H2. rewrite length_skipn in H2. cbn in H2, Hl1. lia. }
  assert (Hl2 : length (c2 :: l2) = (W - 1)%nat)
    by (rewrite <- H2, length_skipn; lia).
  destruct fuel as [|fuel]; [lia|].
  cbn [brokenLines]. cbn [length]. rewrite length_app, length_firstn.
  rewrite (skipn_all2 (c2 :: l2)) by lia.
  destruct fuel; cbn [brokenLines length]; cbn [length] in Hl1, Hl2; lia.
Qed.

(** C3.  At width 1 three plain runes come out as two lines, not three:
    "abc" becomes "a", "bc" with a single synthetic break, because the rune
    that is wrapped over is not counted on its new line. *)
Theorem three_runes_at_width_one :
  let s := fst (AddContent 80 parsedReader (SetColumns plainScaffold 1)
                  (plain text_abc)) in
  String_symbols (content s) = [97; 10; 98; 99]
  /\ length (List.filter isNewline (content s)) = 1%nat
  /\ length (contentLines s) = 2%nat.
Proof. vm_compute. repeat split. Qed.

Section SessionFacts.

Variable termColumns : Z.
Variable Reader : Type.
Variable ParseStream : Reader -> error + bunt_String.

Lemma AddContent_columns (s : Scaffold) (input : Reader) :
  columns (fst (AddContent termColumns ParseStream s input)) = columns s.
Proof. unfold AddContent. destruct (ParseStream input); reflexivity. Qed.

Lemma AddContent_content (s s' : Scaffold) (input : Reader) :
  columns s' = columns s ->
  content (fst (AddContent termColumns ParseStream s input))
  = content s ++ ingestedFragment termColumns ParseStream s' input.
Proof.
  intros Hc. unfold AddContent, ingestedFragment.
  destruct (ParseStream input) as [err|parsed]; cbn.
  - now rewrite app_nil_r.
  - now rewrite (wrapLoop_columns termColumns s s').
Qed.

End SessionFacts.

(** C7.  Over any sequence of calls on one scaffold the content grows by
    the fragments [ingestedFragment] computes, each wrapped from counter 0
    and an empty buffer, on any scaffold [s'] that merely shares the column
    setting: what a call splices in depends on its own input and the
    effective width, never on what was ingested before. *)
Theorem wrap_counter_restarts_each_call
    (termColumns : Z) (Reader : Type)
    (ParseStream : Reader -> error + bunt_String)
    (s s' : Scaffold) (inputs : list Reader) :
  columns s' = columns s ->
  content (AddContents termColumns ParseStream s inputs)
  = content s
      ++ concat (map (ingestedFragment termColumns ParseStream s') inputs).
Proof.
  intros Hc. unfold AddContents. revert s Hc.
  induction inputs as [|input inputs IH]; intros s Hc; cbn [fold_left map concat].
  - now rewrite app_nil_r.
  - rewrite IH by now rewrite AddContent_columns.
    rewrite (AddContent_content termColumns Reader ParseStream s s') by assumption.
    now rewrite <- app_assoc.
Qed.

(** "ab" then "cd" at width 3, measured against a scaffold that already
    holds other text. *)
Lemma wrap_counter_restarts_each_call_witness :
  columns (set_content (SetColumns plainScaffold 3) (plain text_hello_nl))
  = columns (SetColumns plainScaffold 3)
  /\ content (AddContents 80 parsedReader (SetColumns plainScaffold 3)
               [plain text_ab; plain text_cd])
     = content (SetColumns plainScaffold 3)
         ++ concat (map (ingestedFragment 80 parsedReader
                           (set_content (SetColumns plainScaffold 3)
                              (plain text_hello_nl)))
                      [plain text_ab; plain text_cd]).
Proof.
  split; [reflexivity|].
  apply (wrap_counter_restarts_each_call 80 bunt_String parsedReader
           (SetColumns plainScaffold 3)
           (set_content (SetColumns plainScaffold 3) (plain text_hello_nl))
           [plain text_ab; plain text_cd]).
  reflexivity.
Defined.

(** Two calls leave "abcd" on one visual line of four runes at width 3,
    where a single call breaks it. *)
Example two_calls_do_not_share_the_counter :
  String_symbols
    (content (AddContents 80 parsedReader (SetColumns plainScaffold 3)
                [plain text_ab; plain text_cd]))
  = [97; 98; 99; 100]
  /\ String_symbols
       (content (AddContents 80 parsedReader (SetColumns plainScaffold 3)
                   [plain text_abcd]))
     = [97; 98; 99; 10; 100].
Proof. split; reflexivity. Qed.

(** ** Raw output *)

Lemma utf8_app (l1 l2 : list rune) : utf8 (l1 ++ l2) = utf8 l1 ++ utf8 l2.
Proof. unfold utf8. apply flat_map_app. Qed.

Lemma utf8_cons (r : rune) (l : list rune) : utf8 (r :: l) = encodeRune r ++ utf8 l.
Proof. reflexivity. Qed.

(** Every synthetic break costs one byte and leaves the other bytes alone. *)
Lemma wrapLoop_utf8_length (termColumns : Z) (s : Scaffold) (parsed : bunt_String) :
  forall counter,
    (length (utf8 (String_symbols (wrapLoop termColumns s counter [] parsed)))
     + length parsed
     = length (utf8 (String_symbols parsed))
       + length (wrapLoop termColumns s counter [] parsed))%nat.
Proof.
  induction parsed as [|cr rest IH]; intros counter; [reflexivity|].
  rewrite wrapLoop_cons. cbv zeta. unfold String_symbols in *.
  destruct (_ >? _); cbn [map length]; rewrite !utf8_cons, !length_app.
  - specialize (IH 0). cbn [synthetic Symbol]. change (encodeRune newline) with [10].
    cbn [length]. lia.
  - match goal with |- context [wrapLoop _ _ ?c _ _] => specialize (IH c) end. lia.
Qed.

(** The loop only ever adds runes, and adds none exactly when it returns
    its input. *)
Lemma wrapLoop_length (termColumns : Z) (s : Scaffold) (parsed : bunt_String) :
  forall counter,
    (length parsed <= length (wrapLoop termColumns s counter [] parsed))%nat
    /\ (length (wrapLoop termColumns s counter [] parsed) = length parsed ->
        wrapLoop termColumns s counter [] parsed = parsed).
Proof.
  induction parsed as [|cr rest IH]; intros counter; [split; reflexivity|].
  rewrite wrapLoop_cons. cbv zeta.
  destruct (_ >? _); cbn [length].
  - destruct (IH 0) as [Hle _]. split; lia.
  - match goal with |- context [wrapLoop _ _ ?c _ _] => destruct (IH c) as [Hle Heq] end.
    split; [lia|]. intros Hlen. f_equal. apply Heq. lia.
Qed.

(** What [String()] adds to the symbols: nothing while colours are off,
    and nothing for runes that keep the style word 0. *)
Lemma String_loop_no_colours (renderSGR : Z -> list Z) (s : bunt_String) :
  String_loop false renderSGR 0 s = utf8 (String_symbols s).
Proof.
  induction s as [|cr rest IH]; [reflexivity|].
  cbn [String_loop]. rewrite andb_false_r, IH. reflexivity.
Qed.

Lemma String_loop_unstyled (UseColors : bool) (renderSGR : Z -> list Z)
    (s : bunt_String) :
  unstyled s -> String_loop UseColors renderSGR 0 s = utf8 (String_symbols s).
Proof.
  induction 1 as [|cr rest Hcr Hrest IH]; [reflexivity|].
  cbn [String_loop]. rewrite Hcr. cbn [Z.eqb negb andb]. rewrite IH.
  reflexivity.
Qed.

Lemma String_String_plain (UseColors : bool) (renderSGR : Z -> list Z)
    (s : bunt_String) :
  UseColors = false \/ unstyled s ->
  String_String UseColors renderSGR s = utf8 (String_symbols s).
Proof.
  unfold String_String. intros [-> | Hplain];
    [apply String_loop_no_colours|now apply String_loop_unstyled].
Qed.

Lemma WriteRaw_Buffer (UseColors : bool) (renderSGR : Z -> list Z)
    (s : Scaffold) (buf : Buffer) :
  WriteRaw UseColors renderSGR s buf
  = (buf ++ String_String UseColors renderSGR (content s), None).
Proof. reflexivity. Qed.

(** Synthetic breaks copy the style of the rune they precede, so wrapping
    keeps unstyled text unstyled. *)
Lemma wrapLoop_unstyled (termColumns : Z) (s : Scaffold) (parsed : bunt_String) :
  unstyled parsed ->
  forall counter, unstyled (wrapLoop termColumns s counter [] parsed).
Proof.
  unfold unstyled. induction 1 as [|cr rest Hcr Hrest IH]; intros counter;
    [constructor|].
  rewrite wrapLoop_cons. cbv zeta.
  destruct (_ >? _); repeat constructor; try assumption; apply IH.
Qed.

(** C10, as stated, fails for styled text on a colour terminal: of a bold
    "a" followed by a plain "b" [WriteRaw] writes ESC[1m a ESC[0m b, ten
    bytes, not the two symbols. *)
Lemma raw_output_of_styled_content_has_escapes :
  WriteRaw true sampleSGR (set_content plainScaffold boldThenPlain) ([] : Buffer)
  = ([27; 91; 49; 109; 97; 27; 91; 48; 109; 98], None)
  /\ utf8 (String_symbols (content (set_content plainScaffold boldThenPlain)))
     = [97; 98]
  /\ WriteRaw true sampleSGR (set_content plainScaffold boldThenPlain) ([] : Buffer)
     <> ([] ++ utf8 (String_symbols
                       (content (set_content plainScaffold boldThenPlain))), None).
Proof. split; [reflexivity|]. split; [reflexivity|]. vm_compute. discriminate. Qed.

(** C10, amended.  While colours are off, or when every rune carries the
    style word 0, [WriteRaw] hands the writer the UTF-8 bytes of the
    symbols of the cumulative content, in order; after an ingestion these
    include the synthetic breaks of the wrapped fragment, so whenever
    wrapping changed the fragment the bytes written for it differ from the
    bytes of the text as it was ingested. *)
Theorem raw_output_keeps_synthetic_breaks
    (termColumns : Z) (Reader : Type)
    (ParseStream : Reader -> error + bunt_String)
    (UseColors : bool) (renderSGR : Z -> list Z)
    (s : Scaffold) (input : Reader) (parsed : bunt_String) (buf : Buffer) :
  ParseStream input = inr parsed ->
  wrapLoop termColumns s 0 [] parsed <> parsed ->
  UseColors = false \/ (unstyled (content s) /\ unstyled parsed) ->
  let s' := fst (AddContent termColumns ParseStream s input) in
  WriteRaw UseColors renderSGR s' buf
  = (buf ++ utf8 (String_symbols (content s))
         ++ utf8 (String_symbols (wrapLoop termColumns s 0 [] parsed)), None)
  /\ utf8 (String_symbols (wrapLoop termColumns s 0 [] parsed))
     <> utf8 (String_symbols parsed)
  /\ forall (s0 : Scaffold) (buf0 : Buffer),
       UseColors = false \/ unstyled (content s0) ->
       WriteRaw UseColors renderSGR s0 buf0
       = (buf0 ++ utf8 (String_symbols (content s0)), None).
Proof.
  intros Hparse Hwrapped Hplain s'. subst s'. split; [|split].
  - rewrite WriteRaw_Buffer. unfold AddContent. rewrite Hparse.
    cbn [fst content set_content].
    rewrite String_String_plain.
    + unfold String_symbols. now rewrite map_app, utf8_app.
    + destruct Hplain as [Hoff | [Hold Hnew]]; [now left|right].
      apply Forall_app. split; [assumption|now apply wrapLoop_unstyled].
  - intros Hsame. apply Hwrapped.
    pose proof (wrapLoop_utf8_length termColumns s parsed 0) as Hbytes.
    rewrite Hsame in Hbytes.
    apply (wrapLoop_length termColumns s parsed 0). lia.
  - intros s0 buf0 Hplain0. rewrite WriteRaw_Buffer.
    now rewrite String_String_plain.
Qed.

(** Unstyled "abc" ingested at width 1 is written as "a\nbc", on a colour
    terminal too. *)
Lemma raw_output_keeps_synthetic_breaks_witness :
  (parsedReader (plain text_abc) = inr (plain text_abc)
   /\ wrapLoop 80 (SetColumns plainScaffold 1) 0 [] (plain text_abc)
      <> plain text_abc
   /\ (true = false
       \/ (unstyled (content (SetColumns plainScaffold 1))
           /\ unstyled (plain text_abc))))
  /\ WriteRaw true sampleSGR
       (fst (AddContent 80 parsedReader (SetColumns plainScaffold 1)
               (plain text_abc))) ([] : Buffer)
     = ([] ++ utf8 (String_symbols (content (SetColumns plainScaffold 1)))
           ++ utf8 (String_symbols
                      (wrapLoop 80 (SetColumns plainScaffold 1) 0 []
                         (plain text_abc))), None).
Proof.
  assert (Hwrapped : wrapLoop 80 (SetColumns plainScaffold 1) 0 [] (plain text_abc)
                     <> plain text_abc) by (vm_compute; discriminate).
  assert (Hplain : true = false
                   \/ (unstyled (content (SetColumns plainScaffold 1))
                       /\ unstyled (plain text_abc)))
    by (right; split; unfold unstyled; cbn; repeat constructor).
  split; [split; [reflexivity|split; [exact Hwrapped|exact Hplain]]|].
  exact (proj1 (raw_output_keeps_synthetic_breaks 80 bunt_String parsedReader
                  true sampleSGR
                  (SetColumns plainScaffold 1) (plain text_abc) (plain text_abc) []
                  eq_refl Hwrapped Hplain)).
Defined.

Example raw_output_abc_at_width_one :
  WriteRaw true sampleSGR
    (fst (AddContent 80 parsedReader (SetColumns plainScaffold 1)
            (plain text_abc))) ([] : Buffer)
  = ([97; 10; 98; 99], None)
  /\ utf8 (String_symbols (plain text_abc)) = [97; 98; 99].
Proof. split; reflexivity. Qed.

(** ** Layout *)

Lemma TrimSuffix_newline_snoc (l : list rune) :
  TrimSuffix_newline (l ++ [newline]) = l.
Proof.
  induction l as [|r l IH]; [reflexivity|].
  cbn [app TrimSuffix_newline]. rewrite IH.
  destruct l; reflexivity.
Qed.

Lemma TrimSuffix_newline_other (l : list rune) (r : rune) :
  r <> newline -> TrimSuffix_newline (l ++ [r]) = l ++ [r].
Proof.
  intros Hr. induction l as [|r' l IH].
  - cbn. now apply Z.eqb_neq in Hr as ->.
  - cbn [app TrimSuffix_newline]. rewrite IH. destruct l; reflexivity.
Qed.

Lemma Split_newline_nonempty (l : list rune) : Split_newline l <> [].
Proof.
  induction l as [|r l IH]; cbn; [discriminate|].
  destruct (r =? newline); [discriminate|].
  destruct (Split_newline l); [contradiction|discriminate].
Qed.

(** One more piece than there are newlines. *)
Lemma Split_newline_length (l : list rune) :
  length (Split_newline l) = S (length (List.filter (fun r => r =? newline) l)).
Proof.
  induction l as [|r l IH]; [reflexivity|].
  cbn [Split_newline List.filter].
  destruct (r =? newline); cbn [length]; [now rewrite IH|].
  pose proof (Split_newline_nonempty l).
  destruct (Split_newline l); [contradiction|exact IH].
Qed.




(** "hello\n" is one line; an empty stream is one (empty) line too. *)
Example contentLines_hello :
  contentLines (set_content plainScaffold (plain text_hello_nl))
  = [[104; 101; 108; 108; 111]]
  /\ contentLines plainScaffold = [[]].
Proof. split; reflexivity. Qed.

(** ** Canvas clipping *)

Lemma forRange_unchanged {A : Type} (body : Z -> A -> A) (st : A) :
  forall (rounds : nat) (from : Z),
    (forall i, from <= i < from + Z.of_nat rounds -> body i st = st) ->
    forRange rounds from body st = st.
Proof.
  induction rounds as [|rounds IH]; intros from Hid; [reflexivity|].
  cbn [forRange]. rewrite Hid by lia. apply IH. intros i Hi. apply Hid. lia.
Qed.

(** A loop whose body acts in round [k] only. *)
Lemma forRange_single {A : Type} (body : Z -> A -> A) (k : Z) :
  (forall i st, i <> k -> body i st = st) ->
  forall (rounds : nat) (from : Z) (st : A),
    from <= k < from + Z.of_nat rounds ->
    forRange rounds from body st = body k st.
Proof.
  intros Hid. induction rounds as [|rounds IH]; intros from st Hk; [lia|].
  cbn [forRange].
  destruct (Z.eq_dec from k) as [-> | Hne].
  - apply forRange_unchanged. intros i Hi. apply Hid. lia.
  - rewrite (Hid from st Hne). apply IH. lia.
Qed.

Lemma scanPixel_transparent (p : RGBA) (x y : Z) (st : ScanState) :
  isTransparent p x y = true -> scanPixel p x y st = st.
Proof. intros Ht. unfold scanPixel. destruct st as [[[? ?] ?] ?]. now rewrite Ht. Qed.

Lemma isTransparent_outside (p : RGBA) (x y : Z) :
  Point_In x y (Rect p) = false -> isTransparent p x y = true.
Proof. intros Hout. unfold isTransparent, RGBA_At. now rewrite Hout. Qed.

Lemma scanBounds_all_transparent (p : RGBA) :
  (forall x y, Point_In x y (Rect p) = true -> isTransparent p x y = true) ->
  scanBounds p = sentinelBounds.
Proof.
  intros Hall.
  assert (Hevery : forall x y, isTransparent p x y = true).
  { intros x y. destruct (Point_In x y (Rect p)) eqn:Hin;
      [now apply Hall|now apply isTransparent_outside]. }
  unfold scanBounds. apply forRange_unchanged. intros x _.
  unfold scanColumn. apply forRange_unchanged. intros y _.
  now apply scanPixel_transparent.
Qed.

Lemma scanBounds_single_pixel (p : RGBA) (px py : Z) :
  Point_In px py (Rect p) = true ->
  (forall x y, Point_In x y (Rect p) = true -> x <> px \/ y <> py ->
               isTransparent p x y = true) ->
  scanBounds p = scanPixel p px py sentinelBounds.
Proof.
  intros Hin Hothers.
  assert (Hevery : forall x y, x <> px \/ y <> py -> isTransparent p x y = true).
  { intros x y Hne. destruct (Point_In x y (Rect p)) eqn:Hxy;
      [now apply Hothers|now apply isTransparent_outside]. }
  unfold Point_In in Hin. apply andb_true_iff in Hin as [Hin Hy2].
  apply andb_true_iff in Hin as [Hin Hy1]. apply andb_true_iff in Hin as [Hx1 Hx2].
  apply Z.leb_le in Hx1, Hy1. apply Z.ltb_lt in Hx2, Hy2.
  unfold scanBounds, RGBA_Bounds.
  rewrite (forRange_single (scanColumn p) px).
  - unfold scanColumn, RGBA_Bounds.
    apply (forRange_single (scanPixel p px) py); [|lia].
    intros y st Hne. apply scanPixel_transparent, Hevery. now right.
  - intros x st Hne. unfold scanColumn. apply forRange_unchanged. intros y _.
    apply scanPixel_transparent, Hevery. now left.
  - lia.
Qed.

(** C1.  A canvas whose only non-transparent pixel sits at (5,5) is not
    clipped to the 1x1 image of that pixel: the scan finds the bounds
    5, 5, 5, 5 and [image.Rect(5, 5, 5, 5)], whose [Max] corner lies outside
    the rectangle, is empty, so the clipped image is the empty image, zero
    pixels wide and high, and no longer contains (5,5). *)
Theorem clip_single_pixel_is_empty (p : RGBA) :
  Point_In 5 5 (Rect p) = true ->
  isTransparent p 5 5 = false ->
  (forall x y, Point_In x y (Rect p) = true -> x <> 5 \/ y <> 5 ->
               isTransparent p x y = true) ->
  scanBounds p = (5, 5, 5, 5)
  /\ clipRectangle p = mkRectangle (mkPoint 5 5) (mkPoint 5 5)
  /\ clip p = emptyRGBA
  /\ Rectangle_Dx (RGBA_Bounds (clip p)) = 0
  /\ Rectangle_Dy (RGBA_Bounds (clip p)) = 0
  /\ Point_In 5 5 (RGBA_Bounds (clip p)) = false.
Proof.
  intros Hin Hdot Hothers.
  assert (Hscan : scanBounds p = (5, 5, 5, 5)).
  { rewrite (scanBounds_single_pixel p 5 5 Hin Hothers).
    unfold scanPixel, sentinelBounds. rewrite Hdot. reflexivity. }
  assert (Hrect : clipRectangle p = mkRectangle (mkPoint 5 5) (mkPoint 5 5)).
  { unfold clipRectangle. rewrite Hscan. reflexivity. }
  assert (Hclip : clip p = emptyRGBA).
  { unfold clip, RGBA_SubImage. rewrite Hrect.
    unfold Rectangle_Intersect. cbn [X Y Min Max].
    unfold Point_In in Hin. apply andb_true_iff in Hin as [Hin Hy2].
    apply andb_true_iff in Hin as [Hin Hy1]. apply andb_true_iff in Hin as [Hx1 Hx2].
    apply Z.leb_le in Hx1, Hy1. apply Z.ltb_lt in Hx2, Hy2.
    destruct (Z.ltb_spec 5 (X (Min (Rect p)))); [lia|].
    destruct (Z.ltb_spec 5 (Y (Min (Rect p)))); [lia|].
    destruct (Z.gtb_spec 5 (X (Max (Rect p)))); [lia|].
    destruct (Z.gtb_spec 5 (Y (Max (Rect p)))); [lia|].
    reflexivity. }
  rewrite Hclip. repeat split; assumption || reflexivity.
Qed.

Lemma clip_single_pixel_is_empty_witness :
  (Point_In 5 5 (Rect dotCanvas) = true /\ isTransparent dotCanvas 5 5 = false)
  /\ scanBounds dotCanvas = (5, 5, 5, 5)
  /\ clipRectangle dotCanvas = mkRectangle (mkPoint 5 5) (mkPoint 5 5)
  /\ clip dotCanvas = emptyRGBA
  /\ Rectangle_Dx (RGBA_Bounds (clip dotCanvas)) = 0
  /\ Rectangle_Dy (RGBA_Bounds (clip dotCanvas)) = 0
  /\ Point_In 5 5 (RGBA_Bounds (clip dotCanvas)) = false.
Proof.
  split; [split; reflexivity|].
  apply (clip_single_pixel_is_empty dotCanvas); [reflexivity|reflexivity|].
  intros x y _ Hne. unfold isTransparent, RGBA_At, dotCanvas. cbn [pixel Rect].
  destruct (Point_In x y _); [|reflexivity].
  destruct (Z.eqb_spec x 5) as [Hx|Hx]; destruct (Z.eqb_spec y 5) as [Hy|Hy];
    try reflexivity.
  lia.
Defined.

(** The same canvas, by evaluation. *)
Example clip_dotCanvas :
  RGBA_Bounds dotCanvas = mkRectangle (mkPoint 0 0) (mkPoint 10 10)
  /\ RGBA_Bounds (clip dotCanvas) = ZR.
Proof. split; vm_compute; reflexivity. Qed.

Lemma sentinel_rectangle :
  image_Rect MaxInt MaxInt 0 0 = mkRectangle (mkPoint 0 0) (mkPoint MaxInt MaxInt).
Proof. reflexivity. Qed.

(** C2, as stated, fails on the blank canvas: no branch sets the
    degenerate case apart; the scan leaves the sentinel bounds untouched
    and the sub-image is cut with the rectangle built from them. *)
Lemma clip_blank_uses_sentinel_bounds :
  (forall x y, isTransparent blankCanvas x y = true)
  /\ scanBounds blankCanvas = (MaxInt, MaxInt, 0, 0)
  /\ clip blankCanvas = RGBA_SubImage blankCanvas (image_Rect MaxInt MaxInt 0 0)
  /\ ~ avoidsSentinelRectangle blankCanvas.
Proof.
  split; [|split; [reflexivity|split; [reflexivity|]]].
  - intros x y. unfold isTransparent, RGBA_At, blankCanvas. cbn [pixel Rect].
    destruct (Point_In x y _); reflexivity.
  - intros Hguard. apply Hguard. reflexivity.
Qed.

(** C2, amended.  On a fully transparent canvas whose bounds lie between
    0 and [MaxInt] the scan returns the sentinel bounds, [image.Rect] puts
    them in order as the rectangle from (0,0) to ([MaxInt],[MaxInt]), and
    the sub-image cut with it is the whole canvas, or the empty image when
    the canvas itself has no pixel. *)
Theorem clip_all_transparent_is_whole_canvas (p : RGBA) :
  (forall x y, Point_In x y (Rect p) = true -> isTransparent p x y = true) ->
  0 <= X (Min (Rect p)) -> 0 <= Y (Min (Rect p)) ->
  X (Max (Rect p)) <= MaxInt -> Y (Max (Rect p)) <= MaxInt ->
  scanBounds p = sentinelBounds
  /\ clipRectangle p = mkRectangle (mkPoint 0 0) (mkPoint MaxInt MaxInt)
  /\ clip p = if Rectangle_Empty (Rect p) then emptyRGBA else p.
Proof.
  intros Hall Hx0 Hy0 Hx1 Hy1.
  pose proof (scanBounds_all_transparent p Hall) as Hscan.
  assert (Hrect : clipRectangle p
                  = mkRectangle (mkPoint 0 0) (mkPoint MaxInt MaxInt)).
  { unfold clipRectangle. rewrite Hscan. reflexivity. }
  split; [assumption|]. split; [assumption|].
  unfold clip, RGBA_SubImage. rewrite Hrect. clear Hall Hscan Hrect.
  destruct p as [[[x0 y0] [x1 y1]] pix]. cbn [Rect X Y Min Max] in *.
  unfold Rectangle_Intersect. cbn [X Y Min Max].
  assert (Hminx : (if 0 <? x0 then x0 else 0) = x0)
    by (destruct (Z.ltb_spec 0 x0); lia).
  assert (Hminy : (if 0 <? y0 then y0 else 0) = y0)
    by (destruct (Z.ltb_spec 0 y0); lia).
  assert (Hmaxx : (if MaxInt >? x1 then x1 else MaxInt) = x1)
    by (destruct (Z.gtb_spec MaxInt x1); lia).
  assert (Hmaxy : (if MaxInt >? y1 then y1 else MaxInt) = y1)
    by (destruct (Z.gtb_spec MaxInt y1); lia).
  rewrite Hminx, Hminy, Hmaxx, Hmaxy.
  destruct (Rectangle_Empty (mkRectangle (mkPoint x0 y0) (mkPoint x1 y1))) eqn:Hempty.
  - reflexivity.
  - rewrite Hempty. reflexivity.
Qed.

Lemma clip_all_transparent_is_whole_canvas_witness :
  (0 <= X (Min (Rect blankCanvas)) /\ 0 <= Y (Min (Rect blankCanvas))
   /\ X (Max (Rect blankCanvas)) <= MaxInt /\ Y (Max (Rect blankCanvas)) <= MaxInt)
  /\ scanBounds blankCanvas = sentinelBounds
  /\ clipRectangle blankCanvas = mkRectangle (mkPoint 0 0) (mkPoint MaxInt MaxInt)
  /\ clip blankCanvas = blankCanvas.
Proof.
  split; [repeat split; vm_compute; discriminate|].
  apply (clip_all_transparent_is_whole_canvas blankCanvas);
    try (vm_compute; discriminate).
  intros x y _. unfold isTransparent, RGBA_At, blankCanvas. cbn [pixel Rect].
  destruct (Point_In x y _); reflexivity.
Defined.

(** The clipping stage inside [WritePNG]. *)
Lemma WritePNG_clips {W : Type} (render : Scaffold -> error + Image)
    (png_Encode : W -> Image -> W * option error)
    (s : Scaffold) (w : W) (p : RGBA) :
  clipCanvas s = true ->
  render s = inr (ImageRGBA p) ->
  WritePNG render png_Encode s w = png_Encode w (ImageRGBA (clip p)).
Proof. intros Hclip Hrender. unfold WritePNG. now rewrite Hrender, Hclip. Qed.

(** ** Font resolution *)

Lemma list_ascii_of_string_app (a b : string) :
  list_ascii_of_string (a +:+ b)
  = list_ascii_of_string a ++ list_ascii_of_string b.
Proof. induction a as [|c a IH]; simpl; [reflexivity|f_equal; exact IH]. Qed.

Lemma HasSuffix_app_r (s a b : string) :
  HasSuffix s (a +:+ b) = true -> HasSuffix s b = true.
Proof.
  unfold HasSuffix. rewrite list_ascii_of_string_app.
  set (S := list_ascii_of_string s). set (A := list_ascii_of_string a).
  set (B := list_ascii_of_string b).
  intros H. apply andb_true_iff in H as [Hlen Hdrop].
  apply Nat.leb_le in Hlen. apply bool_decide_eq_true in Hdrop.
  rewrite length_app in Hlen, Hdrop.
  apply andb_true_iff. split; [apply Nat.leb_le; lia|].
  apply bool_decide_eq_true.
  replace (length S - length B)%nat
    with ((length S - (length A + length B)) + length A)%nat by lia.
  rewrite <- drop_drop, Hdrop. apply drop_app_length.
Qed.

Lemma styleSuffix_ttf (name style : string) :
  HasSuffix name (styleSuffix style) = true -> HasSuffix name ".ttf" = true.
Proof.
  unfold styleSuffix. intros H.
  apply HasSuffix_app_r in H. now apply HasSuffix_app_r in H.
Qed.

(** An entry the scan does not skip. *)
Lemma matchesStyle_not_skipped (entry : DirEntry) (style : string) :
  matchesStyle entry style = true ->
  IsDir entry || negb (HasSuffix (Name entry) ".ttf") = false.
Proof.
  unfold matchesStyle. intros H. apply andb_true_iff in H as [Hfile Hsuffix].
  apply negb_true_iff in Hfile. rewrite Hfile.
  now rewrite (styleSuffix_ttf _ _ Hsuffix).
Qed.

Lemma matchStyles_error (name : string) (sts : list string) :
  forall foundFiles err,
    matchStyles name sts foundFiles = inl err -> isDuplicate err.
Proof.
  induction sts as [|style sts IH]; intros foundFiles err H; cbn in H;
    [discriminate|].
  destruct (HasSuffix name (styleSuffix style)); [|now apply IH in H].
  destruct (foundFiles !! style) as [existing|]; [|now apply IH in H].
  injection H as <-. now exists style, existing, name.
Qed.

(** The inner loop never forgets a style. *)
Lemma matchStyles_keeps (name : string) (sts : list string) (style : string) :
  forall foundFiles foundFiles',
    matchStyles name sts foundFiles = inr foundFiles' ->
    is_Some (foundFiles !! style) -> is_Some (foundFiles' !! style).
Proof.
  induction sts as [|st sts IH]; intros foundFiles foundFiles' H Hsome; cbn in H.
  - now injection H as <-.
  - destruct (HasSuffix name (styleSuffix st)); [|now apply (IH _ _ H)].
    destruct (foundFiles !! st) eqn:Hst; [discriminate|].
    apply (IH _ _ H). rewrite lookup_insert_ne; [assumption|].
    intros ->. rewrite Hst in Hsome. now destruct Hsome.
Qed.

(** It records every style of the list that the name matches ... *)
Lemma matchStyles_records (name : string) (sts : list string) (style : string) :
  In style sts ->
  HasSuffix name (styleSuffix style) = true ->
  forall foundFiles foundFiles',
    matchStyles name sts foundFiles = inr foundFiles' ->
    is_Some (foundFiles' !! style).
Proof.
  intros Hin Hsuffix.
  induction sts as [|st sts IH]; intros foundFiles foundFiles' H; [destruct Hin|].
  cbn in H. destruct (string_dec st style) as [-> | Hne].
  - rewrite Hsuffix in H.
    destruct (foundFiles !! style); [discriminate|].
    apply (matchStyles_keeps _ _ _ _ _ H). rewrite lookup_insert_eq. now eexists.
  - destruct Hin as [Heq|Hin]; [contradiction|].
    destruct (HasSuffix name (styleSuffix st)); [|now apply (IH Hin _ _ H)].
    destruct (foundFiles !! st); [discriminate|]. now apply (IH Hin _ _ H).
Qed.

(** ... fails on a style that is already taken ... *)
Lemma matchStyles_taken (name : string) (sts : list string) (style : string) :
  In style sts ->
  HasSuffix name (styleSuffix style) = true ->
  forall foundFiles,
    is_Some (foundFiles !! style) ->
    exists err, matchStyles name sts foundFiles = inl err.
Proof.
  intros Hin Hsuffix.
  induction sts as [|st sts IH]; intros foundFiles Hsome; [destruct Hin|].
  cbn. destruct (string_dec st style) as [-> | Hne].
  - rewrite Hsuffix. destruct Hsome as [existing ->]. now eexists.
  - destruct Hin as [Heq|Hin]; [contradiction|].
    destruct (HasSuffix name (styleSuffix st)); [|now apply IH].
    destruct (foundFiles !! st); [now eexists|].
    apply IH; [assumption|]. now rewrite lookup_insert_ne.
Qed.

(** ... and leaves alone every style the name does not match. *)
Lemma matchStyles_other (name : string) (sts : list string) (style : string) :
  HasSuffix name (styleSuffix style) = false ->
  forall foundFiles foundFiles',
    matchStyles name sts foundFiles = inr foundFiles' ->
    foundFiles' !! style = foundFiles !! style.
Proof.
  intros Hsuffix.
  induction sts as [|st sts IH]; intros foundFiles foundFiles' H; cbn in H.
  - now injection H as <-.
  - destruct (HasSuffix name (styleSuffix st)) eqn:Hst; [|now apply IH].
    destruct (foundFiles !! st); [discriminate|].
    rewrite (IH _ _ H). apply lookup_insert_ne. intros ->. congruence.
Qed.

Lemma scanEntries_app (l1 l2 : list DirEntry) :
  forall foundFiles,
    scanEntries (l1 ++ l2) foundFiles
    = match scanEntries l1 foundFiles with
      | inl err => inl err
      | inr foundFiles' => scanEntries l2 foundFiles'
      end.
Proof.
  induction l1 as [|entry l1 IH]; intros foundFiles; cbn [scanEntries app]; [reflexivity|].
  destruct (IsDir entry || negb (HasSuffix (Name entry) ".ttf")); [apply IH|].
  destruct (matchStyles (Name entry) styles foundFiles); [reflexivity|apply IH].
Qed.

Lemma scanEntries_error (entries : list DirEntry) :
  forall foundFiles err,
    scanEntries entries foundFiles = inl err -> isDuplicate err.
Proof.
  induction entries as [|entry entries IH]; intros foundFiles err H; cbn [scanEntries] in H;
    [discriminate|].
  destruct (IsDir entry || negb (HasSuffix (Name entry) ".ttf"));
    [now apply IH in H|].
  destruct (matchStyles (Name entry) styles foundFiles) eqn:Hm.
  - injection H as <-. now apply matchStyles_error in Hm.
  - now apply IH in H.
Qed.

Lemma scanEntries_keeps (entries : list DirEntry) (style : string) :
  forall foundFiles foundFiles',
    scanEntries entries foundFiles = inr foundFiles' ->
    is_Some (foundFiles !! style) -> is_Some (foundFiles' !! style).
Proof.
  induction entries as [|entry entries IH]; intros foundFiles foundFiles' H Hsome;
    cbn [scanEntries] in H.
  - now injection H as <-.
  - destruct (IsDir entry || negb (HasSuffix (Name entry) ".ttf"));
      [now apply (IH _ _ H)|].
    destruct (matchStyles (Name entry) styles foundFiles) eqn:Hm; [discriminate|].
    apply (IH _ _ H). now apply (matchStyles_keeps _ _ _ _ _ Hm).
Qed.

(** Two files for one style stop the scan. *)
Lemma scanEntries_duplicate (style : string) (e1 e2 : DirEntry)
    (pre mid post : list DirEntry) (foundFiles : gmap string string) :
  In style styles ->
  matchesStyle e1 style = true ->
  matchesStyle e2 style = true ->
  exists err,
    scanEntries (pre ++ e1 :: mid ++ e2 :: post) foundFiles = inl err.
Proof.
  intros Hin H1 H2.
  rewrite scanEntries_app.
  destruct (scanEntries pre foundFiles) as [err|found1]; [now eexists|].
  cbn [scanEntries]. rewrite (matchesStyle_not_skipped _ _ H1).
  destruct (matchStyles (Name e1) styles found1) as [err|found2] eqn:Hm1;
    [now eexists|].
  rewrite scanEntries_app.
  destruct (scanEntries mid found2) as [err|found3] eqn:Hmid; [now eexists|].
  cbn [scanEntries]. rewrite (matchesStyle_not_skipped _ _ H2).
  apply andb_true_iff in H1 as [_ H1]. apply andb_true_iff in H2 as [_ H2].
  assert (Hsome : is_Some (found3 !! style)).
  { apply (scanEntries_keeps _ _ _ _ Hmid).
    now apply (matchStyles_records _ _ _ Hin H1 _ _ Hm1). }
  destruct (matchStyles_taken _ _ _ Hin H2 _ Hsome) as [err ->]. now eexists.
Qed.

(** A style with no file in the listing is absent from the map, and a
    style absent from the map has no file in the listing. *)
Lemma scanEntries_unmatched (style : string) (entries : list DirEntry) :
  (forall e, In e entries -> matchesStyle e style = false) ->
  forall foundFiles foundFiles',
    scanEntries entries foundFiles = inr foundFiles' ->
    foundFiles' !! style = foundFiles !! style.
Proof.
  induction entries as [|entry entries IH]; intros Hnone foundFiles foundFiles' H;
    cbn [scanEntries] in H.
  - now injection H as <-.
  - assert (Hrest : forall e, In e entries -> matchesStyle e style = false)
      by (intros e He; apply Hnone; now right).
    destruct (IsDir entry) eqn:Hdir; cbn [orb] in H; [now apply IH|].
    destruct (HasSuffix (Name entry) ".ttf"); cbn [negb] in H; [|now apply IH].
    destruct (matchStyles (Name entry) styles foundFiles) eqn:Hm; [discriminate|].
    rewrite (IH Hrest _ _ H).
    apply (matchStyles_other _ _ _) with (2 := Hm).
    specialize (Hnone entry (or_introl eq_refl)).
    unfold matchesStyle in Hnone. now rewrite Hdir in Hnone.
Qed.

Lemma scanEntries_absent (style : string) (entries : list DirEntry) :
  In style styles ->
  forall foundFiles foundFiles',
    scanEntries entries foundFiles = inr foundFiles' ->
    foundFiles' !! style = None ->
    forall e, In e entries -> matchesStyle e style = false.
Proof.
  intros Hin.
  induction entries as [|entry entries IH]; intros foundFiles foundFiles' H Hnone e He;
    [destruct He|].
  cbn [scanEntries] in H.
  destruct (matchesStyle entry style) eqn:Hmatch.
  - rewrite (matchesStyle_not_skipped _ _ Hmatch) in H.
    destruct (matchStyles (Name entry) styles foundFiles) eqn:Hm; [discriminate|].
    apply andb_true_iff in Hmatch as [_ Hsuffix].
    pose proof (matchStyles_records _ _ _ Hin Hsuffix _ _ Hm) as Hsome.
    apply (scanEntries_keeps _ _ _ _ H) in Hsome.
    rewrite Hnone in Hsome. now destruct Hsome.
  - destruct He as [<- | He]; [assumption|].
    destruct (IsDir entry || negb (HasSuffix (Name entry) ".ttf"));
      [now apply (IH _ _ H Hnone)|].
    destruct (matchStyles (Name entry) styles foundFiles) eqn:Hm; [discriminate|].
    now apply (IH _ _ H Hnone).
Qed.

Lemma verifyStyles_missing (sts : list string) (found : gmap string string)
    (dir style : string) :
  In style sts ->
  found !! style = None ->
  exists missing,
    verifyStyles sts found dir = Some (MissingFont missing dir)
    /\ In missing sts /\ found !! missing = None.
Proof.
  induction sts as [|st sts IH]; intros Hin Hnone; [destruct Hin|].
  cbn [verifyStyles]. destruct (found !! st) eqn:Hst.
  - destruct Hin as [-> | Hin]; [congruence|].
    destruct (IH Hin Hnone) as (missing & Hv & Hm & Hl).
    exists missing. repeat split; [assumption|now right|assumption].
  - exists st. repeat split; [now left|assumption].
Qed.

(** C8.  Once the directory is listed, two files that match the suffix of
    one style make the resolution fail with a duplicate-font error; when the
    scan gets through all entries and a style has no matching file, it
    fails with a missing-font error that names a style without a file (the
    first such style in the order Regular, Bold, Italic, BoldItalic); a
    directory holding only Foo-Regular.ttf and Foo-Bold.ttf fails with the
    missing-font error naming Italic. *)
Theorem font_resolution_failures
    (ReadDir : string -> error + list DirEntry)
    (loadFontFile : string -> string -> error + Face)
    (dir : string) (entries : list DirEntry) :
  ReadDir dir = inr entries ->
  (forall style e1 e2 pre mid post,
      In style styles ->
      entries = pre ++ e1 :: mid ++ e2 :: post ->
      matchesStyle e1 style = true ->
      matchesStyle e2 style = true ->
      exists st existing name,
        LoadFontsFromEmbedded ReadDir loadFontFile dir
        = inl (DuplicateFont st existing name))
  /\ (forall found style,
         scanEntries entries ∅ = inr found ->
         In style styles ->
         (forall e, In e entries -> matchesStyle e style = false) ->
         exists missing,
           LoadFontsFromEmbedded ReadDir loadFontFile dir
           = inl (MissingFont missing dir)
           /\ In missing styles
           /\ forall e, In e entries -> matchesStyle e missing = false)
  /\ (entries = fooFonts ->
      LoadFontsFromEmbedded ReadDir loadFontFile dir
      = inl (MissingFont "Italic" dir)).
Proof.
  intros Hread. unfold LoadFontsFromEmbedded. rewrite Hread.
  split; [|split].
  - intros style e1 e2 pre mid post Hin -> H1 H2.
    destruct (scanEntries_duplicate style e1 e2 pre mid post ∅ Hin H1 H2)
      as [err Herr].
    rewrite Herr. apply scanEntries_error in Herr.
    destruct Herr as (st & existing & name & ->). now exists st, existing, name.
  - intros found style Hscan Hin Hnone. rewrite Hscan.
    assert (Habsent : found !! style = None).
    { rewrite (scanEntries_unmatched style entries Hnone _ _ Hscan).
      apply lookup_empty. }
    destruct (verifyStyles_missing styles found dir style Hin Habsent)
      as (missing & Hverify & Hmissing & Hlookup).
    rewrite Hverify. exists missing. split; [reflexivity|]. split; [assumption|].
    now apply (scanEntries_absent missing entries Hmissing _ _ Hscan).
  - intros ->. reflexivity.
Qed.

Lemma font_resolution_failures_witness :
  (fun _ : string => @inr error _ fooFonts) "fonts"%string = inr fooFonts
  /\ LoadFontsFromEmbedded (fun _ => inr fooFonts) (fun _ _ => inr monoFace)
       "fonts"
     = inl (MissingFont "Italic" "fonts").
Proof.
  split; [reflexivity|].
  apply (font_resolution_failures (fun _ => inr fooFonts)
           (fun _ _ => inr monoFace) "fonts" fooFonts eq_refl).
  reflexivity.
Defined.

(** Two regular files, and the message of the missing-italic failure. *)
Example duplicate_regular :
  scanEntries
    [mkDirEntry "A-Regular.ttf" false; mkDirEntry "B-Regular.ttf" false] ∅
  = inl (DuplicateFont "Regular" "A-Regular.ttf" "B-Regular.ttf").
Proof. reflexivity. Qed.

Example missing_italic_message :
  FontError_error (MissingFont "Italic" "fonts")
  = ErrMsg "missing required font file: no file matching *-Italic.ttf found in fonts".
Proof. reflexivity. Qed.

(** * Further properties of the engine *)

(** ** Ingestion: what wrapping does to a fragment *)

Section WrappingFacts.

Variable termColumns : Z.
Variable s : Scaffold.

Local Abbreviation wrap := (wrapLoop termColumns s).
Local Abbreviation W := (GetFixedColumns termColumns s).

Lemma wrapLoop_spliced (parsed : bunt_String) :
  forall counter, BreaksSpliced parsed (wrap counter [] parsed).
Proof.
  induction parsed as [|cr rest IH]; intros counter; [constructor|].
  rewrite wrapLoop_cons. cbv zeta.
  destruct (_ >? _); constructor; apply IH.
Qed.

Lemma wrapLoop_length_upper (parsed : bunt_String) :
  forall counter, (length (wrap counter [] parsed) <= 2 * length parsed)%nat.
Proof.
  induction parsed as [|cr rest IH]; intros counter; [reflexivity|].
  rewrite wrapLoop_cons. cbv zeta.
  destruct (_ >? _); cbn [length].
  - specialize (IH 0). lia.
  - match goal with |- context [wrapLoop _ _ ?c _ _] => specialize (IH c) end. lia.
Qed.

Lemma Split_newline_cons_newline (l : list rune) :
  Split_newline (newline :: l) = [] :: Split_newline l.
Proof. reflexivity. Qed.

Lemma Split_newline_cons_other (r : rune) (l : list rune) :
  r <> newline ->
  exists line lines,
    Split_newline l = line :: lines
    /\ Split_newline (r :: l) = (r :: line) :: lines.
Proof.
  intros Hr. cbn [Split_newline]. apply Z.eqb_neq in Hr. rewrite Hr.
  pose proof (Split_newline_nonempty l).
  destruct (Split_newline l) as [|line lines]; [contradiction|].
  now exists line, lines.
Qed.

Lemma synthetic_differs (cr : ColoredRune) : isNewline cr = false -> synthetic cr <> cr.
Proof.
  unfold isNewline, synthetic. intros Hcr Heq.
  apply (f_equal Symbol) in Heq. cbn in Heq. rewrite <- Heq in Hcr. discriminate.
Qed.

(** From counter [c] the loop leaves the fragment alone exactly when the
    rest of the current line and every later line fit. *)
Lemma wrapLoop_unchanged_iff (parsed : bunt_String) :
  forall counter,
    0 <= counter <= W ->
    wrap counter [] parsed = parsed
    <-> exists line lines,
          Split_newline (String_symbols parsed) = line :: lines
          /\ lineFits (W - counter) line /\ Forall (lineFits W) lines.
Proof.
  unfold lineFits.
  induction parsed as [|cr rest IH]; intros counter Hc.
  - split; [intros _|reflexivity]. exists [], []. cbn. repeat split; [lia|constructor].
  - rewrite wrapLoop_cons. cbv zeta. unfold String_symbols in *. cbn [map].
    destruct (isNewline cr) eqn:Hcr.
    + unfold isNewline in Hcr. apply Z.eqb_eq in Hcr. rewrite Hcr.
      rewrite Split_newline_cons_newline.
      destruct (Z.gtb_spec 0 W) as [Hgt|_]; [lia|].
      split.
      * intros Heq. injection Heq as Heq. apply (IH 0) in Heq; [|lia].
        destruct Heq as (line & lines & Hsplit & Hline & Hlines).
        exists [], (line :: lines). rewrite Hsplit.
        repeat split; [cbn; lia|]. constructor; [lia|assumption].
      * intros (line & lines & Hsplit & _ & Hlines). injection Hsplit as _ <-.
        f_equal. apply (IH 0); [lia|].
        pose proof (Split_newline_nonempty (map Symbol rest)) as Hne.
        destruct (Split_newline (map Symbol rest)) as [|l ls]; [contradiction|].
        inversion Hlines; subst. exists l, ls. repeat split; [lia|assumption].
    + assert (Hsym : Symbol cr <> newline)
        by (unfold isNewline in Hcr; now apply Z.eqb_neq).
      destruct (Split_newline_cons_other (Symbol cr) (map Symbol rest) Hsym)
        as (line & lines & Hrest & Hall).
      rewrite Hall.
      destruct (Z.gtb_spec (counter + 1) W) as [Hgt|Hle].
      * split.
        -- intros Heq. injection Heq as Heq _. now apply synthetic_differs in Heq.
        -- intros (l & ls & Hsplit & Hline & _). injection Hsplit as <- <-.
           cbn [length] in Hline. lia.
      * split.
        -- intros Heq. injection Heq as Heq. apply (IH (counter + 1)) in Heq; [|lia].
           destruct Heq as (l & ls & Hsplit & Hline & Hlines).
           rewrite Hrest in Hsplit. injection Hsplit as <- <-.
           exists (Symbol cr :: line), lines.
           repeat split; [cbn [length]; lia|assumption].
        -- intros (l & ls & Hsplit & Hline & Hlines). injection Hsplit as <- <-.
           f_equal. apply (IH (counter + 1)); [lia|].
           exists line, lines. repeat split; [assumption|cbn [length] in Hline; lia|assumption].
Qed.

(** From counter [c] the current line gets at most [W - c] more runes and
    every later line at most [W + 1]. *)
Lemma wrapLoop_line_bound (parsed : bunt_String) :
  forall counter,
    0 <= counter <= W ->
    exists line lines,
      Split_newline (String_symbols (wrap counter [] parsed)) = line :: lines
      /\ lineFits (W - counter) line /\ Forall (lineFits (W + 1)) lines.
Proof.
  unfold lineFits.
  induction parsed as [|cr rest IH]; intros counter Hc.
  - exists [], []. cbn. repeat split; [lia|constructor].
  - rewrite wrapLoop_cons. cbv zeta. unfold String_symbols in *.
    destruct (isNewline cr) eqn:Hcr.
    + destruct (Z.gtb_spec 0 W) as [Hgt|_]; [lia|].
      unfold isNewline in Hcr. apply Z.eqb_eq in Hcr. cbn [map]. rewrite Hcr.
      rewrite Split_newline_cons_newline.
      destruct (IH 0) as (line & lines & Hsplit & Hline & Hlines); [lia|].
      exists [], (line :: lines). rewrite Hsplit.
      repeat split; [cbn; lia|]. constructor; [lia|assumption].
    + assert (Hsym : Symbol cr <> newline)
        by (unfold isNewline in Hcr; now apply Z.eqb_neq).
      destruct (Z.gtb_spec (counter + 1) W) as [Hgt|Hle].
      * cbn [map synthetic Symbol]. rewrite Split_newline_cons_newline.
        destruct (IH 0) as (line & lines & Hsplit & Hline & Hlines); [lia|].
        destruct (Split_newline_cons_other (Symbol cr)
                    (map Symbol (wrap 0 [] rest)) Hsym)
          as (l & ls & Hrest & Hall).
        rewrite Hsplit in Hrest. injection Hrest as <- <-.
        exists [], ((Symbol cr :: line) :: lines). rewrite Hall.
        repeat split; [cbn; lia|]. constructor; [cbn [length]; lia|assumption].
      * cbn [map].
        destruct (IH (counter + 1)) as (line & lines & Hsplit & Hline & Hlines); [lia|].
        destruct (Split_newline_cons_other (Symbol cr)
                    (map Symbol (wrap (counter + 1) [] rest)) Hsym)
          as (l & ls & Hrest & Hall).
        rewrite Hsplit in Hrest. injection Hrest as <- <-.
        exists (Symbol cr :: line), lines. rewrite Hall.
        repeat split; [cbn [length]; lia|assumption].
Qed.

(** Below width 0 every round of the loop wraps. *)
Lemma wrapLoop_negative_width (parsed : bunt_String) :
  W < 0 ->
  forall counter,
    0 <= counter ->
    wrap counter [] parsed = flat_map (fun cr => [synthetic cr; cr]) parsed.
Proof.
  intros Hw. induction parsed as [|cr rest IH]; intros counter Hc; [reflexivity|].
  rewrite wrapLoop_cons. cbv zeta.
  destruct (isNewline cr);
    match goal with |- context [?c >? W] => destruct (Z.gtb_spec c W) end;
    try lia; cbn [flat_map app]; now rewrite IH.
Qed.

End WrappingFacts.

(** X1.  One [AddContent] call either fails in the tokenizer, leaving the
    scaffold as it was and wrapping the cause, or appends to the content a
    copy of the parsed fragment in which nothing but synthetic breaks has
    been spliced in, each right before an input rune and with that rune's
    style; the fragment grows by at most one rune per input rune. *)
Theorem AddContent_only_splices_breaks
    (termColumns : Z) (Reader : Type)
    (ParseStream : Reader -> error + bunt_String)
    (s : Scaffold) (input : Reader) :
  match ParseStream input with
  | inl err =>
      AddContent termColumns ParseStream s input
      = (s, Some (ErrWrap "failed to parse input stream: " err))
  | inr parsed =>
      exists fragment,
        AddContent termColumns ParseStream s input
        = (set_content s (content s ++ fragment), None)
        /\ BreaksSpliced parsed fragment
        /\ (length parsed <= length fragment <= 2 * length parsed)%nat
  end.
Proof.
  unfold AddContent. destruct (ParseStream input) as [err|parsed]; [reflexivity|].
  exists (wrapLoop termColumns s 0 [] parsed).
  split; [reflexivity|]. split; [apply wrapLoop_spliced|]. split.
  - apply wrapLoop_length.
  - apply wrapLoop_length_upper.
Qed.

(** X2.  At a width of 0 or more, wrapping returns the fragment unchanged
    exactly when each of its lines (the runs between hard newlines) has at
    most [W] runes. *)
Theorem wrap_changes_only_long_lines
    (termColumns : Z) (s : Scaffold) (parsed : bunt_String) :
  0 <= GetFixedColumns termColumns s ->
  wrapLoop termColumns s 0 [] parsed = parsed
  <-> Forall (lineFits (GetFixedColumns termColumns s))
        (Split_newline (String_symbols parsed)).
Proof.
  intros Hw. rewrite (wrapLoop_unchanged_iff termColumns s parsed 0) by lia.
  rewrite Z.sub_0_r. split.
  - intros (line & lines & -> & Hline & Hlines). now constructor.
  - intros Hall.
    pose proof (Split_newline_nonempty (String_symbols parsed)) as Hne.
    destruct (Split_newline (String_symbols parsed)) as [|line lines];
      [contradiction|].
    inversion Hall; subst. now exists line, lines.
Qed.

(** "ab\ncd" at width 3. *)
Lemma wrap_changes_only_long_lines_witness :
  0 <= GetFixedColumns 80 (SetColumns plainScaffold 3)
  /\ (wrapLoop 80 (SetColumns plainScaffold 3) 0 [] (plain [97; 98; 10; 99; 100])
      = plain [97; 98; 10; 99; 100]
      <-> Forall (lineFits (GetFixedColumns 80 (SetColumns plainScaffold 3)))
            (Split_newline (String_symbols (plain [97; 98; 10; 99; 100])))).
Proof.
  split; [vm_compute; discriminate|].
  apply (wrap_changes_only_long_lines 80 (SetColumns plainScaffold 3)
           (plain [97; 98; 10; 99; 100])).
  vm_compute; discriminate.
Defined.

(** X3.  At a width of 0 or more, the first visual line of a wrapped
    fragment has at most [W] runes and no later line has more than
    [W + 1], whatever the input, hard newlines included. *)
Theorem wrapped_lines_are_bounded
    (termColumns : Z) (s : Scaffold) (parsed : bunt_String) :
  0 <= GetFixedColumns termColumns s ->
  exists line lines,
    Split_newline (String_symbols (wrapLoop termColumns s 0 [] parsed))
    = line :: lines
    /\ lineFits (GetFixedColumns termColumns s) line
    /\ Forall (lineFits (GetFixedColumns termColumns s + 1)) lines.
Proof.
  intros Hw.
  destruct (wrapLoop_line_bound termColumns s parsed 0)
    as (line & lines & Hsplit & Hline & Hlines); [lia|].
  rewrite Z.sub_0_r in Hline. now exists line, lines.
Qed.

Lemma wrapped_lines_are_bounded_witness :
  0 <= GetFixedColumns 80 (SetColumns plainScaffold 1)
  /\ exists line lines,
       Split_newline
         (String_symbols
            (wrapLoop 80 (SetColumns plainScaffold 1) 0 [] (plain text_abcd)))
       = line :: lines
       /\ lineFits (GetFixedColumns 80 (SetColumns plainScaffold 1)) line
       /\ Forall (lineFits (GetFixedColumns 80 (SetColumns plainScaffold 1) + 1))
            lines.
Proof.
  split; [vm_compute; discriminate|].
  apply (wrapped_lines_are_bounded 80 (SetColumns plainScaffold 1)
           (plain text_abcd)).
  vm_compute; discriminate.
Defined.

(** X4.  With a negative effective width every rune of the fragment, hard
    newlines included, gets a synthetic break in front of it. *)
Theorem negative_width_breaks_every_rune
    (termColumns : Z) (s : Scaffold) (parsed : bunt_String) :
  GetFixedColumns termColumns s < 0 ->
  wrapLoop termColumns s 0 [] parsed
  = flat_map (fun cr => [synthetic cr; cr]) parsed.
Proof. intros Hw. apply wrapLoop_negative_width; [assumption|lia]. Qed.

Lemma negative_width_breaks_every_rune_witness :
  GetFixedColumns 80 (SetColumns plainScaffold (-1)) < 0
  /\ wrapLoop 80 (SetColumns plainScaffold (-1)) 0 [] (plain text_hello_nl)
     = flat_map (fun cr => [synthetic cr; cr]) (plain text_hello_nl).
Proof.
  split; [reflexivity|].
  apply (negative_width_breaks_every_rune 80 (SetColumns plainScaffold (-1))
           (plain text_hello_nl)).
  reflexivity.
Defined.

(** ** Layout: the lines behind a measurement *)

Lemma validRune_newline (r : rune) : validRune r = newline <-> r = newline.
Proof.
  unfold validRune, newline, RuneError.
  destruct (Z.leb_spec 0 r); destruct (Z.ltb_spec r 0xD800);
    destruct (Z.leb_spec 0xE000 r); destruct (Z.leb_spec r 0x10FFFF);
    cbn [andb orb]; lia.
Qed.

Lemma TrimSuffix_newline_plain (l : list rune) :
  Forall (fun r => r <> newline) l -> TrimSuffix_newline l = l.
Proof.
  induction 1 as [|r rest Hr Hrest IH]; [reflexivity|].
  cbn [TrimSuffix_newline]. rewrite IH.
  destruct rest; [|reflexivity]. now apply Z.eqb_neq in Hr as ->.
Qed.

Lemma Split_newline_plain (l : list rune) :
  Forall (fun r => r <> newline) l -> Split_newline l = [l].
Proof.
  induction 1 as [|r rest Hr Hrest IH]; [reflexivity|].
  cbn [Split_newline]. apply Z.eqb_neq in Hr as ->. now rewrite IH.
Qed.

Lemma TrimSuffix_newline_last (l : list rune) :
  List.last l 0 <> newline -> TrimSuffix_newline l = l.
Proof.
  destruct l as [|r l] using rev_ind; [reflexivity|].
  rewrite last_last. intros Hr. now apply TrimSuffix_newline_other.
Qed.

(** A measurement reads the content through its lines only. *)
Lemma measureContent_lines (termColumns : Z) (s1 s2 : Scaffold) :
  contentLines s1 = contentLines s2 ->
  columns s1 = columns s2 -> regular s1 = regular s2 ->
  lineSpacing s1 = lineSpacing s2 ->
  measureContent termColumns s1 = measureContent termColumns s2.
Proof.
  intros Hlines Hcols Hface Hspacing.
  unfold measureContent, fontHeight, GetFixedColumns.
  now rewrite Hlines, Hcols, Hface, Hspacing.
Qed.

(** X5.  One newline at the very end of the content adds no line: content
    that does not end in a newline measures the same with and without a
    final newline rune, in lines, width and height. *)
Theorem final_newline_adds_no_line
    (termColumns : Z) (s : Scaffold) (c : bunt_String) (style : Z) :
  List.last (String_symbols c) 0 <> newline ->
  contentLines (set_content s (c ++ [mkColoredRune style newline]))
  = contentLines (set_content s c)
  /\ measureContent termColumns (set_content s (c ++ [mkColoredRune style newline]))
     = measureContent termColumns (set_content s c).
Proof.
  intros Hlast.
  assert (Hlines : contentLines (set_content s (c ++ [mkColoredRune style newline]))
                   = contentLines (set_content s c)).
  { unfold contentLines. cbn [content set_content].
    rewrite !map_app. cbn [map Symbol]. change (validRune newline) with newline.
    rewrite TrimSuffix_newline_snoc.
    rewrite TrimSuffix_newline_last; [reflexivity|].
    unfold String_symbols in Hlast.
    destruct c as [|cr c] using rev_ind; [cbn; discriminate|].
    rewrite !map_app in *. cbn [map] in *. rewrite last_last in *.
    now rewrite validRune_newline. }
  split; [assumption|].
  now apply measureContent_lines.
Qed.

(** "hello" against "hello\n". *)
Lemma final_newline_adds_no_line_witness :
  List.last (String_symbols (plain [104; 101; 108; 108; 111])) 0 <> newline
  /\ measureContent 80
       (set_content plainScaffold
          (plain [104; 101; 108; 108; 111] ++ [mkColoredRune 0 newline]))
     = measureContent 80 (set_content plainScaffold (plain [104; 101; 108; 108; 111])).
Proof.
  split; [vm_compute; discriminate|].
  apply (final_newline_adds_no_line 80 plainScaffold
           (plain [104; 101; 108; 108; 111]) 0).
  vm_compute; discriminate.
Defined.

(** X6.  Plain text without newlines that is no longer than the effective
    width, ingested into an empty scaffold, is measured as exactly one
    line holding that text. *)
Theorem short_plain_text_is_one_line
    (termColumns : Z) (Reader : Type)
    (ParseStream : Reader -> error + bunt_String)
    (s : Scaffold) (input : Reader) (parsed : bunt_String) :
  content s = [] ->
  ParseStream input = inr parsed ->
  forallb (fun cr => negb (isNewline cr)) parsed = true ->
  Z.of_nat (length parsed) <= GetFixedColumns termColumns s ->
  contentLines (fst (AddContent termColumns ParseStream s input))
  = [map validRune (String_symbols parsed)].
Proof.
  intros Hempty Hparse Hplain Hfit.
  unfold AddContent. rewrite Hparse, Hempty. cbn [fst app].
  unfold contentLines. cbn [content set_content].
  rewrite <- (app_nil_r parsed) at 1.
  rewrite (wrapLoop_fits termColumns s parsed [] Hplain 0) by lia.
  cbn [wrapLoop]. rewrite app_nil_r.
  assert (Hvalid : Forall (fun r => r <> newline)
                     (map validRune (map Symbol parsed))).
  { rewrite map_map. apply List.Forall_forall. intros r Hin.
    apply in_map_iff in Hin as (cr & <- & Hcr).
    rewrite forallb_forall in Hplain. specialize (Hplain cr Hcr).
    apply negb_true_iff in Hplain. unfold isNewline in Hplain.
    rewrite validRune_newline. now apply Z.eqb_neq. }
  rewrite TrimSuffix_newline_plain by assumption.
  now apply Split_newline_plain.
Qed.

Lemma short_plain_text_is_one_line_witness :
  (content (SetColumns plainScaffold 3) = []
   /\ parsedReader (plain text_abc) = inr (plain text_abc)
   /\ forallb (fun cr => negb (isNewline cr)) (plain text_abc) = true
   /\ Z.of_nat (length (plain text_abc))
      <= GetFixedColumns 80 (SetColumns plainScaffold 3))
  /\ contentLines
       (fst (AddContent 80 parsedReader (SetColumns plainScaffold 3)
               (plain text_abc)))
     = [map validRune (String_symbols (plain text_abc))].
Proof.
  split; [repeat split; vm_compute; discriminate|].
  apply (short_plain_text_is_one_line 80 bunt_String parsedReader
           (SetColumns plainScaffold 3) (plain text_abc) (plain text_abc));
    first [reflexivity | vm_compute; discriminate].
Defined.

(** X7.  [measureContent] panics exactly when the column count is
    negative, and with a fixed column count the measured width is the same
    for every content. *)
Theorem measureContent_fixed_columns
    (termColumns : Z) (s : Scaffold) (c1 c2 : bunt_String) :
  (measureContent termColumns s = None <-> columns s < 0)
  /\ (columns s = 0
      \/ option_map fst (measureContent termColumns (set_content s c1))
         = option_map fst (measureContent termColumns (set_content s c2))).
Proof.
  split.
  - unfold measureContent, GetFixedColumns, Repeat_a.
    destruct (Z.eqb_spec (columns s) 0) as [Hzero|Hnz]; cbn [negb].
    + split; [discriminate|lia].
    + destruct (Z.ltb_spec (columns s) 0); split; try discriminate; try lia;
        reflexivity.
  - destruct (Z.eq_dec (columns s) 0) as [Hzero|Hnz]; [now left|right].
    unfold measureContent, GetFixedColumns, Repeat_a. cbn [columns set_content regular].
    apply Z.eqb_neq in Hnz. rewrite Hnz. cbn [negb].
    destruct (columns s <? 0); reflexivity.
Qed.

(** ** The glyph loop: what is drawn, and with which colours *)

Lemma land_pow2 (v n : Z) :
  0 <= n -> Z.land v (2 ^ n) = if Z.testbit v n then 2 ^ n else 0.
Proof.
  intros Hn. apply Z.bits_inj'. intros i Hi.
  rewrite Z.land_spec, Z.pow2_bits_eqb by assumption.
  destruct (Z.eqb_spec n i) as [-> | Hne].
  - destruct (Z.testbit v i); [now rewrite Z.pow2_bits_true|now rewrite Z.bits_0].
  - rewrite andb_false_r.
    destruct (Z.testbit v n); [|now rewrite Z.bits_0].
    rewrite Z.pow2_bits_eqb by assumption. symmetry. now apply Z.eqb_neq.
Qed.

Lemma foreground_flag (settings : Z) :
  (Z.land settings 0x01 =? 1) = Z.testbit settings 0.
Proof.
  pose proof (land_pow2 settings 0 ltac:(lia)) as H. change (2 ^ 0) with 1 in H.
  rewrite H. now destruct (Z.testbit settings 0).
Qed.

Lemma background_flag (settings : Z) :
  (Z.land settings 0x02 =? 2) = Z.testbit settings 1.
Proof.
  pose proof (land_pow2 settings 1 ltac:(lia)) as H. change (2 ^ 1) with 2 in H.
  rewrite H. now destruct (Z.testbit settings 1).
Qed.

Lemma land_0xFF_range (v : Z) : 0 <= Z.land v 0xFF <= 255.
Proof.
  replace (Z.land v 0xFF) with (v mod 256)
    by (symmetry; apply (Z.land_ones _ 8); lia).
  pose proof (Z.mod_pos_bound v 256). lia.
Qed.

Section GlyphLoopFacts.

Variable glyphSize : Face -> rune -> float64 * float64.
Variable s : Scaffold.
Variable xLeft : float64.

Local Abbreviation loop := (glyphLoop glyphSize s xLeft).

(** A round of the loop issues its calls and moves the cursor on. *)
Lemma glyphLoop_cons (x y : float64) (cr : ColoredRune) (rest : bunt_String) :
  exists x' y', loop x y (cr :: rest) = loop x y [cr] ++ loop x' y' rest.
Proof.
  cbn [glyphLoop]. destruct (glyphSize _ _) as [w h].
  destruct (validRune (Symbol cr) =? newline);
    [|destruct (validRune (Symbol cr) =? tab)];
    eexists; eexists; rewrite ?app_nil_r, <- ?app_assoc; cbn [app];
    rewrite <- ?app_assoc; reflexivity.
Qed.

Lemma glyphLoop_single_face (x y : float64) (cr : ColoredRune) :
  facesSet (loop x y [cr]) = [fontFaceOf (Settings cr)].
Proof.
  cbn [glyphLoop]. destruct (glyphSize _ _) as [w h].
  destruct (backgroundOf (Settings cr)) as [[[br bg] bb]|];
    destruct (foregroundOf (Settings cr)) as [[[fr fg] fb]|];
    destruct (validRune (Symbol cr) =? newline);
    try destruct (validRune (Symbol cr) =? tab);
    destruct (underlined (Settings cr)); reflexivity.
Qed.

Lemma glyphLoop_single_drawn (x y : float64) (cr : ColoredRune) :
  drawnStrings (loop x y [cr])
  = if isControl (validRune (Symbol cr)) then []
    else [substituted (validRune (Symbol cr))].
Proof.
  cbn [glyphLoop]. unfold isControl, substituted.
  destruct (glyphSize _ _) as [w h].
  destruct (backgroundOf (Settings cr)) as [[[br bg] bb]|];
    destruct (foregroundOf (Settings cr)) as [[[fr fg] fb]|];
    destruct (validRune (Symbol cr) =? newline);
    try destruct (validRune (Symbol cr) =? tab);
    destruct (underlined (Settings cr)); reflexivity.
Qed.

Lemma glyphLoop_single_channels (x y : float64) (cr : ColoredRune) :
  Forall channelsInRange (loop x y [cr]).
Proof.
  cbn [glyphLoop]. destruct (glyphSize _ _) as [w h].
  unfold backgroundOf, foregroundOf.
  destruct (Z.land (Settings cr) 2 =? 2);
    destruct (Z.land (Settings cr) 1 =? 1);
    destruct (validRune (Symbol cr) =? newline);
    try destruct (validRune (Symbol cr) =? tab);
    destruct (underlined (Settings cr));
    cbn [app]; repeat constructor; apply land_0xFF_range.
Qed.

Lemma glyphLoop_faces (cs : bunt_String) :
  forall x y, facesSet (loop x y cs) = map (fun cr => fontFaceOf (Settings cr)) cs.
Proof.
  induction cs as [|cr rest IH]; intros x y; [reflexivity|].
  destruct (glyphLoop_cons x y cr rest) as (x' & y' & ->).
  unfold facesSet in *. rewrite flat_map_app.
  fold (facesSet (loop x y [cr])). rewrite glyphLoop_single_face.
  cbn [app map]. now rewrite IH.
Qed.

Lemma glyphLoop_drawn (cs : bunt_String) :
  forall x y,
    drawnStrings (loop x y cs)
    = map substituted
        (List.filter (fun r => negb (isControl r))
           (map validRune (String_symbols cs))).
Proof.
  induction cs as [|cr rest IH]; intros x y; [reflexivity|].
  destruct (glyphLoop_cons x y cr rest) as (x' & y' & ->).
  unfold drawnStrings in *. rewrite flat_map_app.
  fold (drawnStrings (loop x y [cr])). rewrite glyphLoop_single_drawn.
  unfold String_symbols in *. cbn [map List.filter].
  destruct (isControl (validRune (Symbol cr))); cbn [negb app map]; now rewrite IH.
Qed.

Lemma glyphLoop_channels (cs : bunt_String) :
  forall x y, Forall channelsInRange (loop x y cs).
Proof.
  induction cs as [|cr rest IH]; intros x y; [constructor|].
  destruct (glyphLoop_cons x y cr rest) as (x' & y' & ->).
  apply Forall_app. split; [apply glyphLoop_single_channels|apply IH].
Qed.

End GlyphLoopFacts.

Lemma substituted_drawable (r : rune) :
  isControl r = false ->
  substituted r <> newline /\ substituted r <> tab
  /\ substituted r <> 0x2717 /\ substituted r <> 0x02E3.
Proof.
  unfold isControl, substituted, newline, tab. intros Hc.
  apply orb_false_iff in Hc as [Hnl Htab].
  apply Z.eqb_neq in Hnl, Htab.
  destruct (Z.eqb_spec r 0x2717); destruct (Z.eqb_spec r 0x02E3);
    cbn [orb]; lia.
Qed.

(** X8.  The glyph loop never stops early and never reorders: it sets one
    face per rune, in order, and draws, in order, exactly the symbols that
    are neither newline nor tab, with the two missing glyphs replaced by
    the multiplication sign; no newline, tab or missing glyph is ever
    drawn. *)
Theorem glyph_loop_draws_every_glyph_in_order
    (glyphSize : Face -> rune -> float64 * float64) (s : Scaffold)
    (xLeft x y : float64) (cs : bunt_String) :
  facesSet (glyphLoop glyphSize s xLeft x y cs)
  = map (fun cr => fontFaceOf (Settings cr)) cs
  /\ drawnStrings (glyphLoop glyphSize s xLeft x y cs)
     = map substituted
         (List.filter (fun r => negb (isControl r))
            (map validRune (String_symbols cs)))
  /\ Forall (fun r => r <> newline /\ r <> tab /\ r <> 0x2717 /\ r <> 0x02E3)
       (drawnStrings (glyphLoop glyphSize s xLeft x y cs)).
Proof.
  split; [apply glyphLoop_faces|]. split; [apply glyphLoop_drawn|].
  rewrite glyphLoop_drawn. apply List.Forall_forall. intros r Hin.
  apply in_map_iff in Hin as (r0 & <- & Hr0).
  apply filter_In in Hr0 as [_ Hr0]. apply negb_true_iff in Hr0.
  now apply substituted_drawable.
Qed.

(** X9.  Every colour the glyph loop hands to [SetRGB255] has its three
    channels between 0 and 255, whatever the style words hold. *)
Theorem glyph_loop_colours_are_bytes
    (glyphSize : Face -> rune -> float64 * float64) (s : Scaffold)
    (xLeft x y : float64) (cs : bunt_String) :
  Forall channelsInRange (glyphLoop glyphSize s xLeft x y cs).
Proof. apply glyphLoop_channels. Qed.

(** X10.  For each rune the default foreground is set exactly when bit 0
    of its style word is clear, and a background cell is filled exactly
    when bit 1 is set; the colour fields of the word play no part in
    either choice. *)
Theorem colour_flags_decide
    (glyphSize : Face -> rune -> float64 * float64) (s : Scaffold)
    (xLeft x y : float64) (cr : ColoredRune) :
  (In (SetColor (defaultForegroundColor s))
      (glyphLoop glyphSize s xLeft x y [cr])
   <-> Z.testbit (Settings cr) 0 = false)
  /\ (In Fill (glyphLoop glyphSize s xLeft x y [cr])
      <-> Z.testbit (Settings cr) 1 = true).
Proof.
  cbn [glyphLoop]. destruct (glyphSize _ _) as [w h].
  unfold backgroundOf, foregroundOf.
  rewrite foreground_flag, background_flag.
  destruct (Z.testbit (Settings cr) 0); destruct (Z.testbit (Settings cr) 1);
    destruct (validRune (Symbol cr) =? newline);
    try destruct (validRune (Symbol cr) =? tab);
    destruct (underlined (Settings cr));
    cbn [In app]; split; split; intros H;
    repeat match goal with
           | H : _ \/ _ |- _ => destruct H as [H|H]
           end;
    try discriminate; try contradiction; try reflexivity; auto 10.
Qed.

(** ** Canvas clipping: the scan as a bounding box *)

Lemma forRange_preserves {A : Type} (P : A -> Prop) (body : Z -> A -> A) :
  (forall i st, P st -> P (body i st)) ->
  forall (rounds : nat) (from : Z) (st : A),
    P st -> P (forRange rounds from body st).
Proof.
  intros Hstep. induction rounds as [|rounds IH]; intros from st Hst; [assumption|].
  cbn [forRange]. apply IH, Hstep, Hst.
Qed.

(** What round [k] establishes survives the later rounds. *)
Lemma forRange_visits {A : Type} (Q : A -> Prop) (body : Z -> A -> A) (k : Z) :
  (forall i st, Q st -> Q (body i st)) ->
  (forall st, Q (body k st)) ->
  forall (rounds : nat) (from : Z) (st : A),
    from <= k < from + Z.of_nat rounds ->
    Q (forRange rounds from body st).
Proof.
  intros Hkeep Hk. induction rounds as [|rounds IH]; intros from st Hrange; [lia|].
  cbn [forRange]. destruct (Z.eq_dec from k) as [-> | Hne].
  - apply forRange_preserves; [assumption|apply Hk].
  - apply IH. lia.
Qed.

Lemma solidAt_inside (p : RGBA) (x y : Z) :
  solidAt p x y -> Point_In x y (Rect p) = true.
Proof.
  unfold solidAt. intros Hsolid.
  destruct (Point_In x y (Rect p)) eqn:Hin; [reflexivity|].
  rewrite (isTransparent_outside p x y Hin) in Hsolid. discriminate.
Qed.

Lemma Point_In_range (x y : Z) (r : Rectangle) :
  Point_In x y r = true
  <-> X (Min r) <= x < X (Max r) /\ Y (Min r) <= y < Y (Max r).
Proof.
  unfold Point_In. rewrite !andb_true_iff, !Z.leb_le, !Z.ltb_lt. lia.
Qed.

Lemma scanPixel_encloses_keeps (p : RGBA) (x y x0 y0 : Z) (st : ScanState) :
  encloses st x0 y0 -> encloses (scanPixel p x y st) x0 y0.
Proof.
  destruct st as [[[minX minY] maxX] maxY]. unfold scanPixel, encloses.
  destruct (isTransparent p x y); cbn [negb]; [tauto|].
  destruct (Z.ltb_spec x minX); destruct (Z.ltb_spec y minY);
    destruct (Z.gtb_spec x maxX); destruct (Z.gtb_spec y maxY); lia.
Qed.

Lemma scanPixel_encloses_own (p : RGBA) (x y : Z) (st : ScanState) :
  solidAt p x y -> encloses (scanPixel p x y st) x y.
Proof.
  destruct st as [[[minX minY] maxX] maxY]. unfold scanPixel, encloses, solidAt.
  intros ->. cbn [negb].
  destruct (Z.ltb_spec x minX); destruct (Z.ltb_spec y minY);
    destruct (Z.gtb_spec x maxX); destruct (Z.gtb_spec y maxY); lia.
Qed.

Lemma scanPixel_attained (p : RGBA) (x y : Z) (st : ScanState) :
  attained p st -> attained p (scanPixel p x y st).
Proof.
  destruct st as [[[minX minY] maxX] maxY]. unfold scanPixel, attained.
  destruct (isTransparent p x y) eqn:Hsolid; cbn [negb]; [tauto|].
  intros (H1 & H2 & H3 & H4).
  destruct (Z.ltb_spec x minX); destruct (Z.ltb_spec y minY);
    destruct (Z.gtb_spec x maxX); destruct (Z.gtb_spec y maxY);
    repeat split; try assumption; right; eexists; exact Hsolid.
Qed.

Lemma scanColumn_encloses_keeps (p : RGBA) (x x0 y0 : Z) (st : ScanState) :
  encloses st x0 y0 -> encloses (scanColumn p x st) x0 y0.
Proof.
  intros Henc. unfold scanColumn.
  apply (forRange_preserves (fun st => encloses st x0 y0)); [|exact Henc].
  intros y st'. apply scanPixel_encloses_keeps.
Qed.

(** The scan encloses every non-transparent pixel. *)
Lemma scanBounds_encloses (p : RGBA) (x y : Z) :
  solidAt p x y -> encloses (scanBounds p) x y.
Proof.
  intros Hsolid. pose proof (solidAt_inside p x y Hsolid) as Hin.
  apply Point_In_range in Hin.
  unfold scanBounds, RGBA_Bounds.
  apply (forRange_visits (fun st => encloses st x y) (scanColumn p) x).
  - intros x' st. apply scanColumn_encloses_keeps.
  - intros st. unfold scanColumn, RGBA_Bounds.
    apply (forRange_visits (fun st => encloses st x y) (scanPixel p x) y).
    + intros y' st'. apply scanPixel_encloses_keeps.
    + intros st'. now apply scanPixel_encloses_own.
    + lia.
  - lia.
Qed.

Lemma scanBounds_attained (p : RGBA) : attained p (scanBounds p).
Proof.
  unfold scanBounds. apply (forRange_preserves (attained p)).
  - intros x st Hst. unfold scanColumn.
    apply (forRange_preserves (attained p)); [|assumption].
    intros y st'. apply scanPixel_attained.
  - unfold attained, sentinelBounds. tauto.
Qed.

(** The scan as a bounding box with inclusive corners. *)
Lemma scanBounds_bounding_box
    (p : RGBA) (minX minY maxX maxY x0 y0 : Z) :
  inFirstQuadrant p ->
  solidAt p x0 y0 ->
  scanBounds p = (minX, minY, maxX, maxY) ->
  (forall x y, solidAt p x y -> minX <= x <= maxX /\ minY <= y <= maxY)
  /\ (exists y, solidAt p minX y) /\ (exists x, solidAt p x minY)
  /\ (exists y, solidAt p maxX y) /\ (exists x, solidAt p x maxY).
Proof.
  intros (Hx0 & Hy0 & Hx1 & Hy1) Hsolid Hscan.
  pose proof (scanBounds_attained p) as Hatt.
  pose proof (scanBounds_encloses p x0 y0 Hsolid) as Henc.
  pose proof (solidAt_inside p x0 y0 Hsolid) as Hin.
  apply Point_In_range in Hin.
  rewrite Hscan in Hatt, Henc. unfold attained in Hatt. unfold encloses in Henc.
  destruct Hatt as (Ha & Hb & Hc & Hd).
  split.
  - intros x y Hxy. pose proof (scanBounds_encloses p x y Hxy) as H.
    now rewrite Hscan in H.
  - repeat split.
    + destruct Ha as [Ha|Ha]; [lia|assumption].
    + destruct Hb as [Hb|Hb]; [lia|assumption].
    + destruct Hc as [Hc|Hc]; [|assumption].
      exists y0. now replace maxX with x0 by lia.
    + destruct Hd as [Hd|Hd]; [|assumption].
      exists x0. now replace maxY with y0 by lia.
Qed.

(** X11.  On a canvas in the first quadrant that has a non-transparent
    pixel, the four bounds the scan ends with form the bounding box of the
    non-transparent pixels with both corners included: every such pixel
    lies within them and each bound is the coordinate of such a pixel. *)
Theorem scan_finds_the_bounding_box
    (p : RGBA) (minX minY maxX maxY x0 y0 : Z) :
  inFirstQuadrant p ->
  solidAt p x0 y0 ->
  scanBounds p = (minX, minY, maxX, maxY) ->
  (forall x y, solidAt p x y -> minX <= x <= maxX /\ minY <= y <= maxY)
  /\ (exists y, solidAt p minX y) /\ (exists x, solidAt p x minY)
  /\ (exists y, solidAt p maxX y) /\ (exists x, solidAt p x maxY).
Proof.
  intros Hquadrant Hsolid Hscan.
  exact (scanBounds_bounding_box p minX minY maxX maxY x0 y0
           Hquadrant Hsolid Hscan).
Qed.

Lemma scan_finds_the_bounding_box_witness :
  (inFirstQuadrant blockCanvas /\ solidAt blockCanvas 3 5
   /\ scanBounds blockCanvas = (2, 3, 4, 7))
  /\ (forall x y, solidAt blockCanvas x y -> 2 <= x <= 4 /\ 3 <= y <= 7)
  /\ (exists y, solidAt blockCanvas 2 y) /\ (exists x, solidAt blockCanvas x 3)
  /\ (exists y, solidAt blockCanvas 4 y) /\ (exists x, solidAt blockCanvas x 7).
Proof.
  assert (Hq : inFirstQuadrant blockCanvas)
    by (repeat split; vm_compute; discriminate).
  split; [split; [exact Hq|split; reflexivity]|].
  apply (scan_finds_the_bounding_box blockCanvas 2 3 4 7 3 5 Hq);
    reflexivity.
Defined.

(** ** Canvas clipping: what the sub-image keeps *)

Lemma SubImage_inside (p : RGBA) (r : Rectangle) (x y : Z) :
  Point_In x y (Rect (RGBA_SubImage p r)) = true ->
  Point_In x y (Rect p) = true /\ Point_In x y r = true
  /\ RGBA_At (RGBA_SubImage p r) x y = RGBA_At p x y.
Proof.
  unfold RGBA_SubImage, Rectangle_Intersect.
  set (cut := mkRectangle _ _).
  destruct (Rectangle_Empty cut) eqn:Hcut.
  - change (Rectangle_Empty ZR) with true. cbn iota. cbn [Rect emptyRGBA].
    intros Hin. apply Point_In_range in Hin. cbn [ZR X Y Min Max] in Hin. lia.
  - rewrite Hcut. cbn [Rect]. intros Hin.
    assert (Hp : Point_In x y (Rect p) = true /\ Point_In x y r = true).
    { apply Point_In_range in Hin. rewrite !Point_In_range.
      subst cut. cbn [X Y Min Max] in Hin.
      destruct (Z.ltb_spec (X (Min r)) (X (Min (Rect p))));
        destruct (Z.ltb_spec (Y (Min r)) (Y (Min (Rect p))));
        destruct (Z.gtb_spec (X (Max r)) (X (Max (Rect p))));
        destruct (Z.gtb_spec (Y (Max r)) (Y (Max (Rect p)))); lia. }
    destruct Hp as [Hp Hr]. repeat split; try assumption.
    unfold RGBA_At. cbn [Rect pixel]. now rewrite Hin, Hp.
Qed.

(** X12.  Clipping only narrows the bounds: every position of the clipped
    image is a position of the canvas and shows the same colour there. *)
Theorem clip_keeps_the_pixels_it_keeps (p : RGBA) (x y : Z) :
  Point_In x y (RGBA_Bounds (clip p)) = true ->
  Point_In x y (RGBA_Bounds p) = true
  /\ RGBA_At (clip p) x y = RGBA_At p x y.
Proof.
  unfold clip, RGBA_Bounds. intros Hin.
  destruct (SubImage_inside p (clipRectangle p) x y Hin) as (Hp & _ & Hat).
  now split.
Qed.

Lemma clip_keeps_the_pixels_it_keeps_witness :
  Point_In 2 3 (RGBA_Bounds (clip blockCanvas)) = true
  /\ Point_In 2 3 (RGBA_Bounds blockCanvas) = true
  /\ RGBA_At (clip blockCanvas) 2 3 = RGBA_At blockCanvas 2 3.
Proof.
  split; [reflexivity|].
  apply (clip_keeps_the_pixels_it_keeps blockCanvas 2 3). reflexivity.
Defined.

(** X13.  On a canvas in the first quadrant that has a non-transparent
    pixel, the clipped image spans from the least coordinates of the
    non-transparent pixels up to, but not including, the greatest ones (it
    is the empty image when that leaves nothing); so every non-transparent
    pixel of the last column or the last row is cut off, and at least one
    non-transparent pixel always is. *)
Theorem clip_cuts_last_column_and_row
    (p : RGBA) (minX minY maxX maxY x0 y0 : Z) :
  inFirstQuadrant p ->
  solidAt p x0 y0 ->
  scanBounds p = (minX, minY, maxX, maxY) ->
  RGBA_Bounds (clip p)
  = (if (minX <? maxX) && (minY <? maxY)
     then mkRectangle (mkPoint minX minY) (mkPoint maxX maxY) else ZR)
  /\ (forall x y, solidAt p x y -> x = maxX \/ y = maxY ->
                  Point_In x y (RGBA_Bounds (clip p)) = false)
  /\ exists x y, solidAt p x y /\ Point_In x y (RGBA_Bounds (clip p)) = false.
Proof.
  intros Hquadrant Hsolid Hscan.
  destruct (scanBounds_bounding_box p minX minY maxX maxY x0 y0
              Hquadrant Hsolid Hscan)
    as (Henc & [ya Ha] & [xb Hb] & [yc Hc] & [xd Hd]).
  pose proof (Henc x0 y0 Hsolid) as Hbox.
  apply solidAt_inside, Point_In_range in Ha, Hb, Hc, Hd.
  assert (Hbounds :
            RGBA_Bounds (clip p)
            = (if (minX <? maxX) && (minY <? maxY)
               then mkRectangle (mkPoint minX minY) (mkPoint maxX maxY)
               else ZR)).
  { unfold RGBA_Bounds, clip, clipRectangle. rewrite Hscan.
    unfold image_Rect.
    destruct (Z.gtb_spec minX maxX); [lia|].
    destruct (Z.gtb_spec minY maxY); [lia|].
    unfold RGBA_SubImage, Rectangle_Intersect. cbn [X Y Min Max].
    destruct (Z.ltb_spec minX (X (Min (Rect p)))); [lia|].
    destruct (Z.ltb_spec minY (Y (Min (Rect p)))); [lia|].
    destruct (Z.gtb_spec maxX (X (Max (Rect p)))); [lia|].
    destruct (Z.gtb_spec maxY (Y (Max (Rect p)))); [lia|].
    set (cut := mkRectangle (mkPoint minX minY) (mkPoint maxX maxY)).
    assert (Hempty : Rectangle_Empty cut = negb ((minX <? maxX) && (minY <? maxY))).
    { unfold Rectangle_Empty, cut. cbn [X Y Min Max].
      destruct (Z.ltb_spec minX maxX); destruct (Z.ltb_spec minY maxY);
        destruct (Z.geb_spec minX maxX); destruct (Z.geb_spec minY maxY);
        try lia; reflexivity. }
    destruct ((minX <? maxX) && (minY <? maxY)); cbn [negb] in Hempty;
      rewrite Hempty; [rewrite Hempty|]; reflexivity. }
  assert (Hcut : forall x y, x = maxX \/ y = maxY ->
                             Point_In x y (RGBA_Bounds (clip p)) = false).
  { intros x y Hlast. rewrite Hbounds.
    destruct ((minX <? maxX) && (minY <? maxY)).
    - apply not_true_is_false. rewrite Point_In_range. cbn [X Y Min Max]. lia.
    - apply not_true_is_false. rewrite Point_In_range. cbn [ZR X Y Min Max]. lia. }
  split; [exact Hbounds|]. split.
  - intros x y _ Hlast. now apply Hcut.
  - destruct (scanBounds_bounding_box p minX minY maxX maxY x0 y0
                Hquadrant Hsolid Hscan) as (_ & _ & _ & [y Hy] & _).
    exists maxX, y. split; [assumption|]. apply Hcut. now left.
Qed.

Lemma clip_cuts_last_column_and_row_witness :
  (inFirstQuadrant blockCanvas /\ solidAt blockCanvas 3 5
   /\ scanBounds blockCanvas = (2, 3, 4, 7))
  /\ RGBA_Bounds (clip blockCanvas)
     = mkRectangle (mkPoint 2 3) (mkPoint 4 7)
  /\ (forall x y, solidAt blockCanvas x y -> x = 4 \/ y = 7 ->
                  Point_In x y (RGBA_Bounds (clip blockCanvas)) = false)
  /\ exists x y, solidAt blockCanvas x y
                 /\ Point_In x y (RGBA_Bounds (clip blockCanvas)) = false.
Proof.
  assert (Hq : inFirstQuadrant blockCanvas)
    by (repeat split; vm_compute; discriminate).
  split; [split; [exact Hq|split; reflexivity]|].
  apply (clip_cuts_last_column_and_row blockCanvas 2 3 4 7 3 5 Hq);
    reflexivity.
Defined.

(** ** Font resolution: where errors and faces come from *)

Lemma styles_NoDup : NoDup styles.
Proof.
  apply (bool_decide_unpack _). vm_compute. exact I.
Qed.

(** The duplicate the inner loop reports was in the map before the entry. *)
Lemma matchStyles_error_source (name : string) (sts : list string) :
  NoDup sts ->
  forall found err,
    matchStyles name sts found = inl err ->
    exists style existing,
      err = DuplicateFont style existing name /\ In style sts
      /\ HasSuffix name (styleSuffix style) = true
      /\ found !! style = Some existing.
Proof.
  induction 1 as [|st sts Hnotin Hnodup IH]; intros found err H;
    cbn [matchStyles] in H; [discriminate|].
  destruct (HasSuffix name (styleSuffix st)) eqn:Hsuffix.
  - destruct (found !! st) as [existing|] eqn:Hst.
    + injection H as <-. exists st, existing. repeat split; try assumption. now left.
    + destruct (IH _ _ H) as (style & existing & -> & Hin & Hsuf & Hlookup).
      exists style, existing. repeat split; try assumption; [now right|].
      rewrite lookup_insert_ne in Hlookup; [assumption|].
      intros ->. apply Hnotin. now apply list_elem_of_In.
  - destruct (IH _ _ H) as (style & existing & -> & Hin & Hsuf & Hlookup).
    exists style, existing. repeat split; try assumption. now right.
Qed.

(** What the inner loop leaves in the map was there before or is the name
    of the entry, under a style the name matches. *)
Lemma matchStyles_source (name : string) (sts : list string) (style n : string) :
  forall found found',
    matchStyles name sts found = inr found' ->
    found' !! style = Some n ->
    found !! style = Some n
    \/ (n = name /\ HasSuffix name (styleSuffix style) = true).
Proof.
  induction sts as [|st sts IH]; intros found found' H Hlookup;
    cbn [matchStyles] in H.
  - injection H as <-. now left.
  - destruct (HasSuffix name (styleSuffix st)) eqn:Hsuffix; [|now apply (IH _ _ H)].
    destruct (found !! st) eqn:Hst; [discriminate|].
    destruct (IH _ _ H Hlookup) as [Hold|Hnew]; [|now right].
    destruct (string_dec st style) as [-> | Hne].
    + rewrite lookup_insert_eq in Hold. injection Hold as <-. now right.
    + rewrite lookup_insert_ne in Hold by assumption. now left.
Qed.

Lemma recorded_more (entries more : list DirEntry) (found : gmap string string) :
  recorded entries found -> recorded (entries ++ more) found.
Proof.
  intros Hrec style name Hlookup.
  destruct (Hrec style name Hlookup) as (e & Hin & Hname & Hmatch).
  exists e. split; [apply in_or_app; now left|now split].
Qed.

(** The scan, resumed after [processed], keeps the map faithful to the
    listing, and an error it raises points at two listed files. *)
Lemma scanEntries_sound (remaining : list DirEntry) :
  forall (processed : list DirEntry) (found : gmap string string),
    recorded processed found ->
    match scanEntries remaining found with
    | inl err =>
        exists style e1 e2,
          In style styles
          /\ twoFilesFor (processed ++ remaining) style e1 e2
          /\ err = DuplicateFont style (Name e1) (Name e2)
    | inr found' => recorded (processed ++ remaining) found'
    end.
Proof.
  induction remaining as [|entry rest IH]; intros processed found Hrec;
    cbn [scanEntries].
  - now rewrite app_nil_r.
  - replace (processed ++ entry :: rest) with ((processed ++ [entry]) ++ rest)
      by now rewrite <- app_assoc.
    destruct (IsDir entry) eqn:Hdir; cbn [orb];
      [apply IH; now apply recorded_more|].
    destruct (HasSuffix (Name entry) ".ttf"); cbn [negb];
      [|apply IH; now apply recorded_more].
    destruct (matchStyles (Name entry) styles found) as [err|found'] eqn:Hm.
    + destruct (matchStyles_error_source _ _ styles_NoDup _ _ Hm)
        as (style & existing & -> & Hin & Hsuffix & Hlookup).
      destruct (Hrec style existing Hlookup) as (e1 & Hin1 & Hname1 & Hmatch1).
      apply in_split in Hin1 as (pre & mid & ->).
      exists style, e1, entry. split; [assumption|]. split.
      * exists pre, mid, rest. split; [now rewrite <- !app_assoc|].
        split; [assumption|]. unfold matchesStyle. now rewrite Hdir, Hsuffix.
      * now rewrite Hname1.
    + apply IH. intros style name Hlookup.
      destruct (matchStyles_source _ _ _ _ _ _ Hm Hlookup) as [Hold|[-> Hsuffix]].
      * destruct (Hrec style name Hold) as (e & Hin & Hname & Hmatch).
        exists e. split; [apply in_or_app; now left|now split].
      * exists entry. split; [apply in_or_app; right; now left|].
        split; [reflexivity|]. unfold matchesStyle. now rewrite Hdir, Hsuffix.
Qed.

Lemma recorded_empty : recorded [] ∅.
Proof. intros style name H. rewrite lookup_empty in H. discriminate. Qed.

(** X14.  A duplicate-font error is never a false alarm: when the
    resolution fails with it, the listing holds two files that match the
    style the error names, and the error gives their names in listing
    order; and the scan fails exactly when the listing holds two such
    files for some style. *)
Theorem duplicate_error_names_two_files
    (ReadDir : string -> error + list DirEntry)
    (loadFontFile : string -> string -> error + Face)
    (dir : string) (entries : list DirEntry) (style existing name : string) :
  ReadDir dir = inr entries ->
  (LoadFontsFromEmbedded ReadDir loadFontFile dir
   = inl (DuplicateFont style existing name) ->
   exists e1 e2,
     In style styles /\ twoFilesFor entries style e1 e2
     /\ Name e1 = existing /\ Name e2 = name)
  /\ ((exists err, scanEntries entries ∅ = inl err)
      <-> exists st e1 e2, In st styles /\ twoFilesFor entries st e1 e2).
Proof.
  intros Hread.
  pose proof (scanEntries_sound entries [] ∅ recorded_empty) as Hsound.
  cbn [app] in Hsound.
  split.
  - unfold LoadFontsFromEmbedded. rewrite Hread.
    destruct (scanEntries entries ∅) as [err|found].
    + intros Herr. injection Herr as ->.
      destruct Hsound as (st & e1 & e2 & Hin & Htwo & Heq).
      injection Heq as Hst Hexisting Hname. subst st.
      exists e1, e2. split; [assumption|]. split; [assumption|].
      split; now symmetry.
    + destruct (verifyStyles styles found dir) as [err|] eqn:Hverify.
      * intros Herr. injection Herr as ->. exfalso.
        clear - Hverify. unfold styles in Hverify. cbn [verifyStyles] in Hverify.
        repeat match type of Hverify with
               | match ?o with _ => _ end = _ => destruct o
               end; discriminate.
      * destruct (loadStyles loadFontFile styles dir found ∅) as [err|faces] eqn:Hload;
          [|discriminate].
        intros Herr. injection Herr as ->. exfalso.
        clear - Hload. unfold styles in Hload. cbn [loadStyles] in Hload.
        repeat match type of Hload with
               | match ?o with _ => _ end = _ => destruct o
               end; discriminate.
  - split.
    + intros [err Herr]. rewrite Herr in Hsound.
      destruct Hsound as (st & e1 & e2 & Hin & Htwo & _). now exists st, e1, e2.
    + intros (st & e1 & e2 & Hin & pre & mid & post & -> & H1 & H2).
      now apply (scanEntries_duplicate st e1 e2 pre mid post ∅).
Qed.

Lemma duplicate_error_names_two_files_witness :
  (fun _ : string => @inr error _ twoRegulars) "fonts"%string = inr twoRegulars
  /\ ((exists err, scanEntries twoRegulars ∅ = inl err)
      <-> exists st e1 e2, In st styles /\ twoFilesFor twoRegulars st e1 e2).
Proof.
  split; [reflexivity|].
  apply (duplicate_error_names_two_files (fun _ => inr twoRegulars)
           (fun _ _ => inr monoFace) "fonts" twoRegulars
           "Regular" "A-Regular.ttf" "B-Regular.ttf" eq_refl).
Defined.

Lemma verifyStyles_complete (sts : list string) (found : gmap string string)
    (dir : string) :
  verifyStyles sts found dir = None ->
  forall style, In style sts -> is_Some (found !! style).
Proof.
  induction sts as [|st sts IH]; intros H style Hin; [destruct Hin|].
  cbn [verifyStyles] in H. destruct (found !! st) eqn:Hst; [|discriminate].
  destruct Hin as [<- | Hin]; [rewrite Hst; eauto|now apply IH].
Qed.

Lemma verifyStyles_error (sts : list string) (found : gmap string string)
    (dir : string) (err : FontError) :
  verifyStyles sts found dir = Some err ->
  exists style, err = MissingFont style dir /\ In style sts
                /\ found !! style = None.
Proof.
  induction sts as [|st sts IH]; intros H; cbn [verifyStyles] in H; [discriminate|].
  destruct (found !! st) eqn:Hst.
  - destruct (IH H) as (style & -> & Hin & Hnone).
    exists style. repeat split; [now right|assumption].
  - injection H as <-. exists st. repeat split; [now left|assumption].
Qed.

Section LoadingFacts.

Variable loadFontFile : string -> string -> error + Face.
Variable dir : string.
Variable found : gmap string string.

Local Abbreviation fileOf style := (default ""%string (found !! style)).
Local Abbreviation facesLoaded := (facesLoadedFrom loadFontFile dir found).

Lemma loadStyles_sound (sts : list string) :
  forall faces0,
    facesLoaded faces0 ->
    match loadStyles loadFontFile sts dir found faces0 with
    | inl err =>
        exists style cause,
          err = LoadFailed style cause /\ In style sts
          /\ loadFontFile dir (fileOf style) = inl cause
    | inr faces =>
        facesLoaded faces
        /\ (forall style, In style sts -> is_Some (faces !! style))
        /\ (forall style, is_Some (faces0 !! style) -> is_Some (faces !! style))
    end.
Proof.
  induction sts as [|st sts IH]; intros faces0 Hloaded; cbn [loadStyles].
  - split; [assumption|]. split; [intros style []|auto].
  - destruct (loadFontFile dir (fileOf st)) as [cause|face] eqn:Hload.
    + exists st, cause. repeat split; [now left|assumption].
    + specialize (IH (<[st:=face]> faces0)).
      assert (Hloaded' : facesLoaded (<[st:=face]> faces0)).
      { intros style f Hlookup.
        destruct (string_dec st style) as [-> | Hne].
        - rewrite lookup_insert_eq in Hlookup. now injection Hlookup as <-.
        - rewrite lookup_insert_ne in Hlookup by assumption. now apply Hloaded. }
      specialize (IH Hloaded').
      destruct (loadStyles loadFontFile sts dir found (<[st:=face]> faces0))
        as [err|faces].
      * destruct IH as (style & cause & -> & Hin & Hfail).
        exists style, cause. repeat split; [now right|assumption].
      * destruct IH as (Hfaces & Hall & Hkeep).
        split; [assumption|]. split.
        -- intros style [<- | Hin]; [|now apply Hall].
           apply Hkeep. rewrite lookup_insert_eq. now eexists.
        -- intros style Hsome. apply Hkeep.
           destruct (string_dec st style) as [-> | Hne];
             [rewrite lookup_insert_eq; now eexists
             |now rewrite lookup_insert_ne by assumption].
Qed.

End LoadingFacts.

Lemma facesLoaded_empty (loadFontFile : string -> string -> error + Face)
    (dir : string) (found : gmap string string) :
  facesLoadedFrom loadFontFile dir found ∅.
Proof. intros style f H. rewrite lookup_empty in H. discriminate. Qed.

Lemma styles_members :
  In "Regular"%string styles /\ In "Bold"%string styles
  /\ In "Italic"%string styles /\ In "BoldItalic"%string styles.
Proof. unfold styles. cbn [In]. tauto. Qed.

(** The outcomes of the resolution after a successful listing. *)
Lemma LoadFontsFromEmbedded_outcome
    (ReadDir : string -> error + list DirEntry)
    (loadFontFile : string -> string -> error + Face)
    (dir : string) (entries : list DirEntry) :
  ReadDir dir = inr entries ->
  match LoadFontsFromEmbedded ReadDir loadFontFile dir with
  | inl (ReadDirFailed _) => False
  | inl (DuplicateFont style existing name) =>
      exists e1 e2, In style styles /\ twoFilesFor entries style e1 e2
                    /\ Name e1 = existing /\ Name e2 = name
  | inl (MissingFont style d) =>
      d = dir /\ In style styles
      /\ forall e, In e entries -> matchesStyle e style = false
  | inl (LoadFailed style cause) =>
      In style styles
      /\ exists e, In e entries /\ matchesStyle e style = true
                   /\ loadFontFile dir (Name e) = inl cause
  | inr (r, b, i, bi) =>
      loadedFrom loadFontFile dir entries "Regular" r
      /\ loadedFrom loadFontFile dir entries "Bold" b
      /\ loadedFrom loadFontFile dir entries "Italic" i
      /\ loadedFrom loadFontFile dir entries "BoldItalic" bi
  end.
Proof.
  intros Hread. unfold LoadFontsFromEmbedded. rewrite Hread.
  pose proof (scanEntries_sound entries [] ∅ recorded_empty) as Hscan.
  cbn [app] in Hscan.
  destruct (scanEntries entries ∅) as [err|found] eqn:Hscanned.
  { destruct Hscan as (st & e1 & e2 & Hin & Htwo & ->). now exists e1, e2. }
  destruct (verifyStyles styles found dir) as [err|] eqn:Hverify.
  { destruct (verifyStyles_error _ _ _ _ Hverify) as (style & -> & Hin & Hnone).
    split; [reflexivity|]. split; [assumption|].
    now apply (scanEntries_absent style entries Hin _ _ Hscanned). }
  pose proof (verifyStyles_complete _ _ _ Hverify) as Hall.
  assert (Hfile : forall style, In style styles ->
                    exists e, In e entries /\ matchesStyle e style = true
                              /\ default ""%string (found !! style) = Name e).
  { intros style Hin. destruct (Hall style Hin) as [name Hname].
    destruct (Hscan style name Hname) as (e & He & <- & Hmatch).
    exists e. rewrite Hname. now repeat split. }
  pose proof (loadStyles_sound loadFontFile dir found styles ∅
                (facesLoaded_empty loadFontFile dir found)) as Hload.
  destruct (loadStyles loadFontFile styles dir found ∅) as [err|faces].
  { destruct Hload as (style & cause & -> & Hin & Hfail).
    destruct (Hfile style Hin) as (e & He & Hmatch & Heq).
    split; [assumption|]. exists e. rewrite <- Heq. now repeat split. }
  destruct Hload as (Hfaces & Hsome & _).
  assert (Hface : forall style, In style styles ->
                    loadedFrom loadFontFile dir entries style (faces !! style)).
  { intros style Hin. destruct (Hsome style Hin) as [f Hf].
    destruct (Hfile style Hin) as (e & He & Hmatch & Heq).
    exists e, f. rewrite <- Heq. repeat split; try assumption.
    now apply Hfaces. }
  destruct styles_members as (Hr & Hb & Hi & Hbi).
  repeat split; now apply Hface.
Qed.

(** X15.  After a successful listing, a successful resolution returns
    four faces, none of them nil, each loaded from a listed file whose name
    ends with the suffix of its style; and a load failure names a style
    whose listed file really failed to load, with that cause. *)
Theorem resolved_faces_come_from_matching_files
    (ReadDir : string -> error + list DirEntry)
    (loadFontFile : string -> string -> error + Face)
    (dir : string) (entries : list DirEntry) :
  ReadDir dir = inr entries ->
  (forall r b i bi,
      LoadFontsFromEmbedded ReadDir loadFontFile dir = inr (r, b, i, bi) ->
      loadedFrom loadFontFile dir entries "Regular" r
      /\ loadedFrom loadFontFile dir entries "Bold" b
      /\ loadedFrom loadFontFile dir entries "Italic" i
      /\ loadedFrom loadFontFile dir entries "BoldItalic" bi)
  /\ (forall style cause,
         LoadFontsFromEmbedded ReadDir loadFontFile dir
         = inl (LoadFailed style cause) ->
         In style styles
         /\ exists e, In e entries /\ matchesStyle e style = true
                      /\ loadFontFile dir (Name e) = inl cause).
Proof.
  intros Hread.
  pose proof (LoadFontsFromEmbedded_outcome ReadDir loadFontFile dir entries Hread)
    as Houtcome.
  split.
  - intros r b i bi Hresult. now rewrite Hresult in Houtcome.
  - intros style cause Hresult. now rewrite Hresult in Houtcome.
Qed.

Lemma resolved_faces_come_from_matching_files_witness :
  (fun _ : string => @inr error _ fullFonts) "fonts"%string = inr fullFonts
  /\ loadedFrom (fun _ _ => inr monoFace) "fonts" fullFonts "BoldItalic"
       (Some monoFace).
Proof.
  split; [reflexivity|].
  destruct (resolved_faces_come_from_matching_files
              (fun _ => inr fullFonts) (fun _ _ => inr monoFace)
              "fonts" fullFonts eq_refl) as [Hfaces _].
  apply (Hfaces (Some monoFace) (Some monoFace) (Some monoFace) (Some monoFace)).
  reflexivity.
Defined.

(** X16.  The resolution succeeds whenever the listing holds a file for
    each of the four styles, no style has two files, and every file that
    matches a style loads. *)
Theorem complete_directory_resolves
    (ReadDir : string -> error + list DirEntry)
    (loadFontFile : string -> string -> error + Face)
    (dir : string) (entries : list DirEntry) :
  ReadDir dir = inr entries ->
  (forall style, In style styles ->
                 exists e, In e entries /\ matchesStyle e style = true) ->
  (forall style e1 e2, In style styles -> ~ twoFilesFor entries style e1 e2) ->
  (forall style e, In style styles -> In e entries ->
                   matchesStyle e style = true ->
                   exists f, loadFontFile dir (Name e) = inr f) ->
  exists r b i bi,
    LoadFontsFromEmbedded ReadDir loadFontFile dir
    = inr (Some r, Some b, Some i, Some bi).
Proof.
  intros Hread Hfile Hsingle Hloads.
  pose proof (LoadFontsFromEmbedded_outcome ReadDir loadFontFile dir entries Hread)
    as Houtcome.
  destruct (LoadFontsFromEmbedded ReadDir loadFontFile dir)
    as [[cause|style existing name|style d|style cause]|[[[r b] i] bi]].
  - contradiction.
  - destruct Houtcome as (e1 & e2 & Hin & Htwo & _).
    now destruct (Hsingle style e1 e2 Hin).
  - destruct Houtcome as (_ & Hin & Hnone).
    destruct (Hfile style Hin) as (e & He & Hmatch).
    rewrite (Hnone e He) in Hmatch. discriminate.
  - destruct Houtcome as (Hin & e & He & Hmatch & Hfail).
    destruct (Hloads style e Hin He Hmatch) as [f Hf]. congruence.
  - destruct Houtcome as ((e1 & f1 & -> & _) & (e2 & f2 & -> & _)
                          & (e3 & f3 & -> & _) & (e4 & f4 & -> & _)).
    now exists f1, f2, f3, f4.
Qed.

Lemma complete_directory_resolves_witness :
  (fun _ : string => @inr error _ fullFonts) "fonts"%string = inr fullFonts
  /\ exists r b i bi,
       LoadFontsFromEmbedded (fun _ => inr fullFonts) (fun _ _ => inr monoFace)
         "fonts"
       = inr (Some r, Some b, Some i, Some bi).
Proof.
  split; [reflexivity|].
  apply (complete_directory_resolves (fun _ => inr fullFonts)
           (fun _ _ => inr monoFace) "fonts" fullFonts eq_refl).
  - intros style Hin. unfold styles in Hin. cbn [In] in Hin.
    destruct Hin as [<- | [<- | [<- | [<- | []]]]].
    + exists (mkDirEntry "Foo-Regular.ttf" false). split; [cbn; tauto|reflexivity].
    + exists (mkDirEntry "Foo-Bold.ttf" false). split; [cbn; tauto|reflexivity].
    + exists (mkDirEntry "Foo-Italic.ttf" false). split; [cbn; tauto|reflexivity].
    + exists (mkDirEntry "Foo-BoldItalic.ttf" false). split; [cbn; tauto|reflexivity].
  - intros style e1 e2 Hin (pre & mid & post & Heq & H1 & H2).
    destruct (scanEntries_duplicate style e1 e2 pre mid post ∅ Hin H1 H2)
      as [err Herr].
    rewrite <- Heq in Herr. vm_compute in Herr. discriminate.
  - intros style e _ _ _. now exists monoFace.
Defined.

Lemma matchStyles_none (name : string) (sts : list string)
    (found : gmap string string) :
  (forall st, In st sts -> HasSuffix name (styleSuffix st) = false) ->
  matchStyles name sts found = inr found.
Proof.
  induction sts as [|st sts IH]; intros Hnone; cbn [matchStyles]; [reflexivity|].
  rewrite (Hnone st) by now left. apply IH. intros st' Hin. apply Hnone. now right.
Qed.

Lemma existsb_false {A : Type} (f : A -> bool) (l : list A) :
  existsb f l = false -> forall x, In x l -> f x = false.
Proof.
  intros Hnone x Hin. destruct (f x) eqn:Hfx; [|reflexivity].
  assert (existsb f l = true) by (apply existsb_exists; now exists x).
  congruence.
Qed.

(** The scan sees the relevant entries only. *)
Lemma scanEntries_relevant (entries : list DirEntry) :
  forall found,
    scanEntries (List.filter relevantEntry entries) found
    = scanEntries entries found.
Proof.
  induction entries as [|entry rest IH]; intros found; [reflexivity|].
  cbn [List.filter]. destruct (relevantEntry entry) eqn:Hrel; cbn [scanEntries].
  - destruct (IsDir entry || negb (HasSuffix (Name entry) ".ttf")); [apply IH|].
    destruct (matchStyles (Name entry) styles found); [reflexivity|apply IH].
  - rewrite IH.
    destruct (IsDir entry) eqn:Hdir; cbn [orb]; [reflexivity|].
    destruct (HasSuffix (Name entry) ".ttf"); cbn [negb]; [|reflexivity].
    rewrite matchStyles_none; [reflexivity|].
    intros st Hin. pose proof (existsb_false _ _ Hrel st Hin) as Hst.
    unfold matchesStyle in Hst. now rewrite Hdir in Hst.
Qed.

(** X17.  Entries that are directories, or whose names end with none of
    the four style suffixes, play no part: the resolution returns the same
    result on the listing with those entries removed. *)
Theorem stray_entries_are_ignored
    (ReadDir ReadDir' : string -> error + list DirEntry)
    (loadFontFile : string -> string -> error + Face)
    (dir : string) (entries : list DirEntry) :
  ReadDir dir = inr entries ->
  ReadDir' dir = inr (List.filter relevantEntry entries) ->
  LoadFontsFromEmbedded ReadDir' loadFontFile dir
  = LoadFontsFromEmbedded ReadDir loadFontFile dir.
Proof.
  intros Hread Hread'. unfold LoadFontsFromEmbedded.
  now rewrite Hread, Hread', scanEntries_relevant.
Qed.

Lemma stray_entries_are_ignored_witness :
  ((fun _ : string => @inr error _ fullFonts) "fonts"%string = inr fullFonts
   /\ (fun _ : string => @inr error _ (List.filter relevantEntry fullFonts))
        "fonts"%string
      = inr (List.filter relevantEntry fullFonts))
  /\ LoadFontsFromEmbedded (fun _ => inr (List.filter relevantEntry fullFonts))
       (fun _ _ => inr monoFace) "fonts"
     = LoadFontsFromEmbedded (fun _ => inr fullFonts) (fun _ _ => inr monoFace)
         "fonts".
Proof.
  split; [split; reflexivity|].
  apply (stray_entries_are_ignored (fun _ => inr fullFonts)
           (fun _ => inr (List.filter relevantEntry fullFonts))
           (fun _ _ => inr monoFace) "fonts" fullFonts eq_refl eq_refl).
Defined.

(** The stray file and the directory of the sample are dropped. *)
Example relevant_entries_of_fullFonts :
  map Name (List.filter relevantEntry fullFonts)
  = ["Foo-Bold.ttf"; "Foo-BoldItalic.ttf"; "Foo-Italic.ttf"; "Foo-Regular.ttf"]%string.
Proof. reflexivity. Qed.

(** Of two suffixes of one string, the shorter is a suffix of the longer. *)
Lemma HasSuffix_comparable (s a b : string) :
  HasSuffix s a = true -> HasSuffix s b = true ->
  HasSuffix b a = true \/ HasSuffix a b = true.
Proof.
  assert (Hnested : forall S A B : list ascii,
             (length A <= length B)%nat ->
             (length B <= length S)%nat ->
             drop (length S - length A) S = A ->
             drop (length S - length B) S = B ->
             drop (length B - length A) B = A).
  { intros S A B Hab Hbs HA HB.
    rewrite <- HB at 2. rewrite drop_drop.
    replace (length S - length B + (length B - length A))%nat
      with (length S - length A)%nat by lia.
    exact HA. }
  unfold HasSuffix.
  set (S := list_ascii_of_string s). set (A := list_ascii_of_string a).
  set (B := list_ascii_of_string b).
  intros Ha Hb.
  apply andb_true_iff in Ha as [Hla Ha]. apply andb_true_iff in Hb as [Hlb Hb].
  apply Nat.leb_le in Hla, Hlb. apply bool_decide_eq_true in Ha, Hb.
  destruct (Nat.le_ge_cases (length A) (length B)) as [Hab|Hba].
  - left. apply andb_true_iff. split; [now apply Nat.leb_le|].
    apply bool_decide_eq_true. now apply (Hnested S).
  - right. apply andb_true_iff. split; [now apply Nat.leb_le|].
    apply bool_decide_eq_true. now apply (Hnested S).
Qed.

(** X18.  A file matches at most one of the four styles: none of the four
    suffixes ends with another, so a file that matches one style matches no
    other, and Foo-BoldItalic.ttf is never taken for the Italic or the Bold
    face. *)
Theorem file_matches_one_style (e : DirEntry) (style1 style2 : string) :
  In style1 styles -> In style2 styles -> style1 <> style2 ->
  matchesStyle e style1 = true -> matchesStyle e style2 = false.
Proof.
  intros Hin1 Hin2 Hne H1.
  destruct (matchesStyle e style2) eqn:H2; [exfalso|reflexivity].
  unfold matchesStyle in H1, H2.
  apply andb_true_iff in H1 as [_ H1]. apply andb_true_iff in H2 as [_ H2].
  pose proof (HasSuffix_comparable _ _ _ H1 H2) as Hcmp.
  unfold styles in Hin1, Hin2. cbn [In] in Hin1, Hin2.
  destruct Hin1 as [<- | [<- | [<- | [<- | []]]]];
    destruct Hin2 as [<- | [<- | [<- | [<- | []]]]];
    try (now apply Hne);
    vm_compute in Hcmp; destruct Hcmp; discriminate.
Qed.

Lemma file_matches_one_style_witness :
  (In "BoldItalic"%string styles /\ In "Italic"%string styles
   /\ "BoldItalic"%string <> "Italic"%string
   /\ matchesStyle (mkDirEntry "Foo-BoldItalic.ttf" false) "BoldItalic" = true)
  /\ matchesStyle (mkDirEntry "Foo-BoldItalic.ttf" false) "Italic" = false.
Proof.
  split; [repeat split; try (cbn; tauto); discriminate|].
  apply (file_matches_one_style (mkDirEntry "Foo-BoldItalic.ttf" false)
           "BoldItalic" "Italic");
    [cbn; tauto|cbn; tauto|discriminate|reflexivity].
Defined.

Example bold_italic_is_not_italic :
  matchesStyle (mkDirEntry "Foo-BoldItalic.ttf" false) "Italic" = false
  /\ matchesStyle (mkDirEntry "Foo-BoldItalic.ttf" false) "Bold" = false.
Proof. split; reflexivity. Qed.

(** ** Raw output: the bytes of the symbols *)

Lemma validRune_range (r : rune) : 0 <= validRune r <= 0x10FFFF.
Proof.
  unfold validRune, RuneError.
  destruct (Z.leb_spec 0 r); destruct (Z.ltb_spec r 0xD800);
    destruct (Z.leb_spec 0xE000 r); destruct (Z.leb_spec r 0x10FFFF);
    cbn [andb orb]; lia.
Qed.

Lemma validRune_ascii (r : rune) : 0 <= r <= 0x7F -> validRune r = r.
Proof.
  intros Hr. unfold validRune.
  destruct (Z.leb_spec 0 r); destruct (Z.ltb_spec r 0xD800); cbn [andb orb];
    try reflexivity; lia.
Qed.

Lemma lor_byte (a b : Z) : 0 <= a < 256 -> 0 <= b < 256 -> 0 <= Z.lor a b < 256.
Proof.
  intros Ha Hb.
  assert (Hnonneg : 0 <= Z.lor a b) by (apply Z.lor_nonneg; lia).
  split; [assumption|].
  destruct (Z.eq_dec (Z.lor a b) 0) as [-> | Hne]; [lia|].
  change 256 with (2 ^ 8). apply Z.log2_lt_pow2; [lia|].
  rewrite Z.log2_lor by lia.
  assert (Hlog : forall v, 0 <= v < 256 -> Z.log2 v < 8).
  { intros v Hv. destruct (Z.eq_dec v 0) as [-> | Hv0]; [cbn; lia|].
    apply Z.log2_lt_pow2; lia. }
  apply Z.max_lub_lt; now apply Hlog.
Qed.

Lemma land_0x3F_range (v : Z) : 0 <= Z.land v 0x3F < 64.
Proof.
  replace (Z.land v 0x3F) with (v mod 64)
    by (symmetry; apply (Z.land_ones _ 6); lia).
  apply Z.mod_pos_bound. lia.
Qed.

Lemma shiftr_bound (v n limit : Z) :
  0 <= n -> 0 <= v < limit * 2 ^ n -> 0 <= Z.shiftr v n < limit.
Proof.
  intros Hn Hv. rewrite Z.shiftr_div_pow2 by assumption.
  assert (0 < 2 ^ n) by (apply Z.pow_pos_nonneg; lia).
  split; [apply Z.div_pos; lia|apply Z.div_lt_upper_bound; lia].
Qed.

Lemma encodeRune_bytes (r : rune) :
  (1 <= length (encodeRune r) <= 4)%nat
  /\ Forall (fun byte => 0 <= byte <= 255) (encodeRune r).
Proof.
  unfold encodeRune. pose proof (validRune_range r) as Hr.
  set (v := validRune r) in *.
  pose proof (land_0x3F_range v).
  pose proof (land_0x3F_range (Z.shiftr v 6)).
  pose proof (land_0x3F_range (Z.shiftr v 12)).
  assert (Hcont : forall x, 0 <= x < 64 -> 0 <= Z.lor 0x80 x <= 255)
    by (intros x Hx; pose proof (lor_byte 0x80 x); lia).
  destruct (Z.leb_spec v 0x7F); [|destruct (Z.leb_spec v 0x7FF);
                                  [|destruct (Z.leb_spec v 0xFFFF)]];
    (split; [cbn [length]; lia|]); repeat constructor;
    try (apply Hcont; assumption); try lia.
  - pose proof (shiftr_bound v 6 32). pose proof (lor_byte 0xC0 (Z.shiftr v 6)). lia.
  - pose proof (shiftr_bound v 6 32). pose proof (lor_byte 0xC0 (Z.shiftr v 6)). lia.
  - pose proof (shiftr_bound v 12 16). pose proof (lor_byte 0xE0 (Z.shiftr v 12)). lia.
  - pose proof (shiftr_bound v 12 16). pose proof (lor_byte 0xE0 (Z.shiftr v 12)). lia.
  - pose proof (shiftr_bound v 18 8). pose proof (lor_byte 0xF0 (Z.shiftr v 18)). lia.
  - pose proof (shiftr_bound v 18 8). pose proof (lor_byte 0xF0 (Z.shiftr v 18)). lia.
Qed.

Lemma utf8_bytes (rs : list rune) :
  (length rs <= length (utf8 rs) <= 4 * length rs)%nat
  /\ Forall (fun byte => 0 <= byte <= 255) (utf8 rs).
Proof.
  induction rs as [|r rs [IHlen IHbytes]]; [split; [cbn; lia|constructor]|].
  rewrite utf8_cons. destruct (encodeRune_bytes r) as [Hlen Hbytes].
  split; [rewrite length_app; cbn [length]; lia|].
  apply Forall_app. now split.
Qed.

Lemma utf8_ascii (rs : list rune) :
  Forall (fun r => 0 <= r <= 0x7F) rs -> utf8 rs = rs.
Proof.
  induction 1 as [|r rs Hr Hrs IH]; [reflexivity|].
  rewrite utf8_cons, IH. unfold encodeRune. rewrite (validRune_ascii r Hr).
  destruct (Z.leb_spec r 0x7F); [reflexivity|lia].
Qed.

(** X19.  While colours are off, or when every rune of the content
    carries the style word 0, [WriteRaw] appends to an in-memory writer
    between one and four bytes per symbol of the content, each a value from
    0 to 255, and for content made of ASCII symbols it appends the symbols
    themselves. *)
Theorem raw_output_bytes
    (UseColors : bool) (renderSGR : Z -> list Z) (s : Scaffold) (buf : Buffer) :
  UseColors = false \/ unstyled (content s) ->
  exists bytes,
    WriteRaw UseColors renderSGR s buf = (buf ++ bytes, None)
    /\ (length (content s) <= length bytes <= 4 * length (content s))%nat
    /\ Forall (fun byte => 0 <= byte <= 255) bytes
    /\ (Forall (fun r => 0 <= r <= 0x7F) (String_symbols (content s)) ->
        bytes = String_symbols (content s)).
Proof.
  intros Hplain.
  exists (utf8 (String_symbols (content s))).
  split; [now rewrite WriteRaw_Buffer, String_String_plain|].
  destruct (utf8_bytes (String_symbols (content s))) as [Hlen Hbytes].
  unfold String_symbols in Hlen. rewrite length_map in Hlen.
  split; [exact Hlen|]. split; [exact Hbytes|apply utf8_ascii].
Qed.

(** Unstyled "hello\n" on a colour terminal. *)
Lemma raw_output_bytes_witness :
  (true = false
   \/ unstyled (content (set_content plainScaffold (plain text_hello_nl))))
  /\ exists bytes,
       WriteRaw true sampleSGR (set_content plainScaffold (plain text_hello_nl))
         ([] : Buffer)
       = ([] ++ bytes, None)
       /\ (length (content (set_content plainScaffold (plain text_hello_nl)))
           <= length bytes
           <= 4 * length (content (set_content plainScaffold (plain text_hello_nl))))%nat
       /\ Forall (fun byte => 0 <= byte <= 255) bytes
       /\ (Forall (fun r => 0 <= r <= 0x7F)
             (String_symbols
                (content (set_content plainScaffold (plain text_hello_nl)))) ->
           bytes
           = String_symbols
               (content (set_content plainScaffold (plain text_hello_nl)))).
Proof.
  assert (Hplain : true = false
                   \/ unstyled (content (set_content plainScaffold
                                            (plain text_hello_nl))))
    by (right; unfold unstyled; cbn; repeat constructor).
  split; [exact Hplain|].
  exact (raw_output_bytes true sampleSGR
           (set_content plainScaffold (plain text_hello_nl)) [] Hplain).
Defined.

(** X20.  Content that does not end in a newline has one line more than
    it has newline runes. *)
Theorem content_line_count (s : Scaffold) (c : bunt_String) :
  List.last (String_symbols c) 0 <> newline ->
  length (contentLines (set_content s c))
  = S (length (List.filter isNewline c)).
Proof.
  intros Hlast. unfold contentLines. cbn [content set_content].
  rewrite TrimSuffix_newline_last.
  - rewrite Split_newline_length. f_equal.
    induction c as [|cr c IH]; [reflexivity|].
    cbn [map List.filter]. unfold isNewline at 1.
    destruct (Z.eqb_spec (Symbol cr) newline) as [Heq|Hne].
    + rewrite Heq. change (validRune newline =? newline) with true.
      cbn [length]. f_equal. apply IH.
      unfold String_symbols in *. cbn [map] in Hlast.
      destruct c; [cbn in Hlast; congruence|exact Hlast].
    + assert (validRune (Symbol cr) <> newline) as Hv
          by now rewrite validRune_newline.
      apply Z.eqb_neq in Hv. rewrite Hv.
      destruct c as [|cr' c']; [reflexivity|]. apply IH. exact Hlast.
  - unfold String_symbols in Hlast.
    destruct c as [|cr c] using rev_ind; [cbn; discriminate|].
    rewrite !map_app in *. cbn [map] in *. rewrite last_last in *.
    now rewrite validRune_newline.
Qed.

(** "ab\ncd": one newline, two lines. *)
Lemma content_line_count_witness :
  List.last (String_symbols (plain [97; 98; 10; 99; 100])) 0 <> newline
  /\ length (contentLines (set_content plainScaffold (plain [97; 98; 10; 99; 100])))
     = S (length (List.filter isNewline (plain [97; 98; 10; 99; 100]))).
Proof.
  split; [vm_compute; discriminate|].
  apply (content_line_count plainScaffold (plain [97; 98; 10; 99; 100])).
  vm_compute; discriminate.
Defined.

(** ** Layout: the fixed column grid *)

Lemma int32_small (z : Z) : - 2 ^ 31 <= z < 2 ^ 31 -> int32 z = z.
Proof. intros Hz. unfold int32. rewrite Z.mod_small; lia. Qed.

(** Equal glyphs without kerning add up their advances, while the sum
    stays below the 32-bit limit. *)
Lemma measureLoop_repeat (f : Face) (c a : Z) :
  GlyphAdvance f c = Some a -> Kern f c c = 0 -> 0 <= a ->
  forall (n : nat) (prevC advance : Z),
    prevC = -1 \/ prevC = c ->
    0 <= advance ->
    advance + Z.of_nat n * a < 2 ^ 31 ->
    measureLoop f prevC advance (repeat c n) = advance + Z.of_nat n * a.
Proof.
  intros Hadv Hkern Ha. induction n as [|n IH]; intros prevC advance Hprev Hpos Hsum.
  - cbn. lia.
  - cbn [repeat measureLoop]. rewrite Hadv.
    assert (Hstep : (if 0 <=? prevC then int32 (advance + Kern f prevC c)
                     else advance) = advance).
    { destruct Hprev as [-> | ->].
      - reflexivity.
      - rewrite Hkern, Z.add_0_r. destruct (0 <=? c); [|reflexivity].
        apply int32_small. nia. }
    rewrite Hstep. rewrite int32_small by nia.
    rewrite IH; [lia|now right|lia|nia].
Qed.

(** X21.  With a fixed column count [N > 0] and a regular face whose
    glyph "a" advances by [a >= 0] without kerning against itself, the
    measured width is [N * a] in 26.6 fixed point shifted down to pixels,
    whatever the content, as long as [N * a] stays below 2^31. *)
Theorem fixed_columns_width (termColumns : Z) (s : Scaffold) (a : Z) :
  0 < columns s ->
  GlyphAdvance (regular s) 97 = Some a ->
  Kern (regular s) 97 97 = 0 ->
  0 <= a ->
  columns s * a < 2 ^ 31 ->
  option_map fst (measureContent termColumns s)
  = Some (float64_of_int (Z.shiftr (columns s * a) 6)).
Proof.
  intros Hcols Hadv Hkern Ha Hsum.
  unfold measureContent, GetFixedColumns, Repeat_a.
  destruct (Z.eqb_spec (columns s) 0) as [Hzero|_]; [lia|]. cbn [negb].
  destruct (Z.ltb_spec (columns s) 0) as [Hneg|_]; [lia|].
  cbn [option_map fst]. unfold MeasureString.
  rewrite (measureLoop_repeat (regular s) 97 a Hadv Hkern Ha
             (Z.to_nat (columns s)) (-1) 0 (or_introl eq_refl))
    by (rewrite ?Z2Nat.id by lia; lia).
  now rewrite Z2Nat.id, Z.add_0_l by lia.
Qed.

(** Three columns of the 6px sample face: 18px. *)
Lemma fixed_columns_width_witness :
  (0 < columns (SetColumns plainScaffold 3)
   /\ GlyphAdvance (regular (SetColumns plainScaffold 3)) 97 = Some 384
   /\ Kern (regular (SetColumns plainScaffold 3)) 97 97 = 0
   /\ 0 <= 384 /\ columns (SetColumns plainScaffold 3) * 384 < 2 ^ 31)
  /\ option_map fst (measureContent 80 (SetColumns plainScaffold 3))
     = Some (float64_of_int 18).
Proof.
  split; [repeat split; try reflexivity; vm_compute; discriminate|].
  apply (fixed_columns_width 80 (SetColumns plainScaffold 3) 384);
    try reflexivity; vm_compute; discriminate.
Defined.
